(** * Layer lifecycle of the ESCAP climate-risk backend

    A shallow embedding of [backend/main.py]: the layer names the upload
    handlers hand to the map service, the upload / read / cleanup handlers
    themselves as state-passing functions over the metadata store, the map
    service and the spatial cache, and the route table in registration
    order.

    Python [str] values are modelled as [string] (a sequence of bytes, the
    UTF-8 encoding of the text); an f-string is concatenation. *)

From stdpp Require Import base decidable option list strings gmap sorting.
From Stdlib Require Import ZArith Lia Ascii.

Local Open Scope string_scope.
Local Open Scope list_scope.

(** ** Layer names *)

Module Codec.

Inductive DatasetKind := climate | giri | energy | boundary.

Global Instance DatasetKind_eq_dec : EqDecision DatasetKind.
Proof. solve_decision. Defined.

(** The logical identity of a layer, one shape per upload handler:
    [upload_climate_data] and [upload_giri_data] take [country],
    [variable] and [scenario]; [upload_energy_data] takes [country] and
    [infrastructure_type]; [upload_boundary_data] takes [country]. *)
Inductive LayerIdentity :=
  | Climate (country variable scenario : string)
  | Giri (country variable scenario : string)
  | Energy (country infrastructure_type : string)
  | Boundary (country : string).

Global Instance LayerIdentity_eq_dec : EqDecision LayerIdentity.
Proof. solve_decision. Defined.

Definition country_of (i : LayerIdentity) : string :=
  match i with
  | Climate c _ _ | Giri c _ _ | Energy c _ | Boundary c => c
  end.

Definition kind_of (i : LayerIdentity) : DatasetKind :=
  match i with
  | Climate _ _ _ => climate
  | Giri _ _ _ => giri
  | Energy _ _ => energy
  | Boundary _ => boundary
  end.

(** The (country, datasetKind, variable, scenario) tuple of an identity;
    the infrastructure type of an energy layer sits in the variable
    slot. *)
Definition identity_tuple (i : LayerIdentity)
  : string * DatasetKind * option string * option string :=
  match i with
  | Climate c v s => (c, climate, Some v, Some s)
  | Giri c v s => (c, giri, Some v, Some s)
  | Energy c t => (c, energy, Some t, None)
  | Boundary c => (c, boundary, None, None)
  end.

(** The input fields of an identity, in composition order. *)
Definition fields (i : LayerIdentity) : list string :=
  match i with
  | Climate c v s | Giri c v s => [c; v; s]
  | Energy c t => [c; t]
  | Boundary c => [c]
  end.

(** [name=f"{country}_{variable}_{scenario}"] (upload_climate_data),
    [name=f"{country}_{variable}_{scenario}_giri"] (upload_giri_data),
    [name=f"{country}_{infrastructure_type}_energy"] (upload_energy_data),
    [name=f"{country}_boundary"] (upload_boundary_data). *)
Definition layer_name (i : LayerIdentity) : string :=
  match i with
  | Climate country variable scenario =>
      country +:+ "_" +:+ variable +:+ "_" +:+ scenario
  | Giri country variable scenario =>
      country +:+ "_" +:+ variable +:+ "_" +:+ scenario +:+ "_giri"
  | Energy country infrastructure_type =>
      country +:+ "_" +:+ infrastructure_type +:+ "_energy"
  | Boundary country =>
      country +:+ "_boundary"
  end.

(** *** Character classes *)

Definition underscore : ascii := "_"%char.

Definition is_lower (c : ascii) : bool :=
  let n := Ascii.nat_of_ascii c in (97 <=? n)%nat && (n <=? 122)%nat.

Definition is_digit (c : ascii) : bool :=
  let n := Ascii.nat_of_ascii c in (48 <=? n)%nat && (n <=? 57)%nat.

(** A character legal in an external resource identifier: lowercase
    alphanumeric or underscore. *)
Definition legal_char (c : ascii) : bool :=
  is_lower c || is_digit c || bool_decide (c = underscore).

Fixpoint all_chars (p : ascii → bool) (s : string) : bool :=
  match s with
  | EmptyString => true
  | String c s' => p c && all_chars p s'
  end.

Definition legal_name (s : string) : bool := all_chars legal_char s.

Definition underscore_free (s : string) : bool :=
  all_chars (λ c, negb (bool_decide (c = underscore))) s.

(** Identities on which the composition can be read back: no field
    contains the separator, and a climate scenario is not the literal
    the energy handler appends. *)
Definition separable (i : LayerIdentity) : bool :=
  forallb underscore_free (fields i) &&
  match i with
  | Climate _ _ scenario => negb (bool_decide (scenario = "energy"))
  | _ => true
  end.

(** The pieces a name is made of, literal suffix included, and their
    composition with the separator; [layer_name] is the composition of
    the pieces (lemma [layer_name_segments]). *)
Definition segments (i : LayerIdentity) : string * list string :=
  match i with
  | Climate c v s => (c, [v; s])
  | Giri c v s => (c, [v; s; "giri"])
  | Energy c t => (c, [t; "energy"])
  | Boundary c => (c, ["boundary"])
  end.

Fixpoint join_underscore (first : string) (rest : list string) : string :=
  match rest with
  | [] => first
  | s :: rest' => first +:+ "_" +:+ join_underscore s rest'
  end.

End Codec.

(** ** Python-level values and results *)

Module Py.

(** A JSON value ([json.loads], statistics, bounds).  Numbers keep their
    decimal text: the handlers only pass them along. *)
#[local] Unset Elimination Schemes.
Inductive Json :=
  | JNull
  | JBool (b : bool)
  | JNum (text : string)
  | JStr (s : string)
  | JArr (items : list Json)
  | JObj (members : list (string * Json)).
#[local] Set Elimination Schemes.

(** The outcome of a call that may raise; [Raise msg] carries [str(e)]. *)
Inductive Exc (A : Type) :=
  | Return (a : A)
  | Raise (msg : string).
Global Arguments Return {A} a.
Global Arguments Raise {A} msg.

(** What a handler hands back to the HTTP layer: a body, or
    [HTTPException(status_code, detail)]. *)
Inductive HttpResponse (A : Type) :=
  | Ok (body : A)
  | HTTPException (status_code : nat) (detail : string).
Global Arguments Ok {A} body.
Global Arguments HTTPException {A} status_code detail.

Definition is_ok {A} (r : HttpResponse A) : bool :=
  match r with Ok _ => true | HTTPException _ _ => false end.

(** [str(x)] for an optional string: [None] prints as the text None. *)
Definition str_opt (o : option string) : string :=
  match o with Some s => s | None => "None" end.

End Py.
Export Py.

(** ** The metadata store

    [models.py] and [database.py] are not among the sources.  The rows
    below have the columns the handlers of [main.py] write and read. *)

Module ClimateData.
Record t := mk {
  country : string; variable : string; scenario : string;
  year_range : option string; season : option string;
  file_path : string;
  min_value : Json; max_value : Json; mean_value : Json;
  classification : Json }.
End ClimateData.

Module GiriData.
Record t := mk {
  country : string; variable : string; scenario : string;
  file_path : string;
  min_value : Json; max_value : Json; mean_value : Json;
  classification : Json }.
End GiriData.

Module EnergyData.
Record t := mk {
  country : string; infrastructure_type : string;
  file_path : string; capacity_attribute : string;
  icon_path : option string }.
End EnergyData.

Module BoundaryData.
Record t := mk {
  country : string; file_path : string; hover_attribute : string;
  feature_count : Z; bounds : Json }.
End BoundaryData.

Module Store.

(** Modelled from the spec: the tables of [models.py], which is not
    among the sources.  The store is the spec's opaque persistence
    layer: one table per dataset kind, the rows keyed by the
    auto-assigned [id] that [get_country_layers] reads back. *)
Record Database := mkDatabase {
  climate_data : list (nat * ClimateData.t);
  giri_data : list (nat * GiriData.t);
  energy_data : list (nat * EnergyData.t);
  boundary_data : list (nat * BoundaryData.t) }.

Definition empty : Database := mkDatabase [] [] [] [].

Inductive Row :=
  | ClimateRow (r : ClimateData.t)
  | GiriRow (r : GiriData.t)
  | EnergyRow (r : EnergyData.t)
  | BoundaryRow (r : BoundaryData.t).

(** A request-scoped session ([Depends(get_db)]): the durable tables and
    the rows staged by [merge] since the last [commit]. *)
Record Session := mkSession { tables : Database; pending : list Row }.

Definition begin (d : Database) : Session := mkSession d [].

Definition next_id {A} (table : list (nat * A)) : nat :=
  S (foldr Nat.max 0 (fst <$> table)).

Definition insert_row (d : Database) (row : Row) : Database :=
  match row with
  | ClimateRow r =>
      mkDatabase (climate_data d ++ [(next_id (climate_data d), r)])
                 (giri_data d) (energy_data d) (boundary_data d)
  | GiriRow r =>
      mkDatabase (climate_data d)
                 (giri_data d ++ [(next_id (giri_data d), r)])
                 (energy_data d) (boundary_data d)
  | EnergyRow r =>
      mkDatabase (climate_data d) (giri_data d)
                 (energy_data d ++ [(next_id (energy_data d), r)])
                 (boundary_data d)
  | BoundaryRow r =>
      mkDatabase (climate_data d) (giri_data d) (energy_data d)
                 (boundary_data d ++ [(next_id (boundary_data d), r)])
  end.

(** Modelled from the spec: [db.merge(obj)] of the session of
    [database.py], which is not among the sources.  The row is built
    without an id, so merging stages the write of one new record. *)
Definition merge (row : Row) (s : Session) : Session :=
  mkSession (tables s) (pending s ++ [row]).

(** Modelled from the spec: [db.commit()] of the session of
    [database.py], which is not among the sources.  The staged records
    become durable, each under a fresh id. *)
Definition commit (s : Session) : Database :=
  foldl insert_row (tables s) (pending s).


(** Modelled from the spec: [db.query(T).filter(T.country == country).all()]
    on the tables of [models.py], which is not among the sources: the
    read of the existing metadata rows of a country. *)
Definition query_climate (country : string) (d : Database) :=
  filter (λ p, ClimateData.country p.2 = country) (climate_data d).
Definition query_giri (country : string) (d : Database) :=
  filter (λ p, GiriData.country p.2 = country) (giri_data d).
Definition query_energy (country : string) (d : Database) :=
  filter (λ p, EnergyData.country p.2 = country) (energy_data d).
Definition query_boundary (country : string) (d : Database) :=
  filter (λ p, BoundaryData.country p.2 = country) (boundary_data d).

End Store.

(** ** The map service behind [geoserver_manager]

    [services/geoserver_manager.py] is not among the sources.  The
    operations below follow the Publish Client, the Duplicate Resolver
    and the cleanup of the specification; every network call can fail
    with a [PublishError] that the environment decides. *)

Module GeoServer.
Import Codec.

Inductive ReadinessState := NotStarted | Initializing | Ready | Failed.

Global Instance ReadinessState_eq_dec : EqDecision ReadinessState.
Proof. solve_decision. Defined.

Inductive ErrorKind := Unreachable | Rejected | NotFound.

Global Instance ErrorKind_eq_dec : EqDecision ErrorKind.
Proof. solve_decision. Defined.

Record PublishError := mkError { kind : ErrorKind; detail : string }.

Global Instance PublishError_eq_dec : EqDecision PublishError.
Proof. solve_decision. Defined.

Record LayerRegistration := mkRegistration {
  externalName : string;
  identity : LayerIdentity;
  createdAt : Z;
  sourceArtifactPath : string }.

Global Instance LayerRegistration_eq_dec : EqDecision LayerRegistration.
Proof. solve_decision. Defined.

(** The manager object: the process-wide readiness flag and the
    registrations the service holds. *)
Record t := mk { readiness : ReadinessState; layers : list LayerRegistration }.

Definition with_readiness (r : ReadinessState) (g : t) : t := mk r (layers g).
Definition with_layers (l : list LayerRegistration) (g : t) : t :=
  mk (readiness g) l.

(** The network calls of the client. *)
Inductive ServiceCall :=
  | CreateWorkspace (name : string)
  | PublishRaster (name : string)
  | PublishVector (name : string)
  | ListLayers (scope : option string)
  | DeleteLayer (name : string).

(** The environment: which call fails at which time, and how. *)
Definition Faults := Z → ServiceCall → option PublishError.

Definition named (name : string) (r : LayerRegistration) : bool :=
  bool_decide (externalName r = name).

Definition in_country (c : string) (r : LayerRegistration) : bool :=
  bool_decide (country_of (identity r) = c).

(** Modelled from the spec: the effect of a publish of
    [geoserver_manager.py], which is not among the sources.  It
    registers or replaces: whatever was registered under [name] goes,
    one registration for [name] is there afterwards.  The registration
    records the identity the caller publishes, so that listings can
    report it. *)
Definition register (now : Z) (who : LayerIdentity) (name path : string)
    (g : t) : t :=
  with_layers
    (mkRegistration name who now path ::
     List.filter (λ r, negb (named name r)) (layers g)) g.

(** Modelled from the spec: [publishRaster] of the Publish Client
    ([geoserver_manager.publish_raster], not among the sources); fails
    as the environment says, registers or replaces otherwise. *)
Definition publishRaster (faults : Faults) (now : Z) (who : LayerIdentity)
    (name path : string) (g : t) : PublishError + t :=
  match faults now (PublishRaster name) with
  | Some e => inl e
  | None => inr (register now who name path g)
  end.

(** Modelled from the spec: [publishVector] of the Publish Client
    ([geoserver_manager.publish_vector], not among the sources), with
    the same replace semantics. *)
Definition publishVector (faults : Faults) (now : Z) (who : LayerIdentity)
    (name path : string) (g : t) : PublishError + t :=
  match faults now (PublishVector name) with
  | Some e => inl e
  | None => inr (register now who name path g)
  end.

(** Modelled from the spec: [listLayers] of the Publish Client (not
    among the sources): the registrations of a country, or all. *)
Definition listLayers (faults : Faults) (now : Z) (scope : option string)
    (g : t) : PublishError + list LayerRegistration :=
  match faults now (ListLayers scope) with
  | Some e => inl e
  | None =>
      inr (match scope with
           | Some c => List.filter (in_country c) (layers g)
           | None => layers g
           end)
  end.

(** Modelled from the spec: [deleteLayer] of the Publish Client (not
    among the sources): removes the registration of that name; an
    absent layer ([NotFound]) counts as deleted. *)
Definition deleteLayer (faults : Faults) (now : Z) (name : string)
    (g : t) : PublishError + t :=
  match faults now (DeleteLayer name) with
  | Some e =>
      match kind e with
      | NotFound => inr g
      | _ => inl e
      end
  | None => inr (with_layers (List.filter (λ r, negb (named name r)) (layers g)) g)
  end.

(** *** Duplicate Resolver *)

(** Modelled from the spec: the order of the Duplicate Resolver (in
    [geoserver_manager.py], not among the sources).  [newer_first a b]:
    [a] comes before [b] when sorting by createdAt descending; on equal
    createdAt the lexicographically greater external name comes
    first. *)
Definition newer_first (a b : LayerRegistration) : Prop :=
  (createdAt b < createdAt a)%Z ∨
  (createdAt a = createdAt b ∧ String.le (externalName b) (externalName a)).

Global Instance newer_first_dec : RelDecision newer_first.
Proof. intros a b. unfold newer_first. apply _. Defined.

Record Resolution := mkResolution {
  kept : list LayerRegistration;
  stale : list LayerRegistration }.

(** Modelled from the spec: the Duplicate Resolver on one group of
    registrations sharing an identity (in [geoserver_manager.py], not
    among the sources): the first after sorting is kept, the others are
    stale. *)
Definition resolve_group (group : list LayerRegistration) : Resolution :=
  match merge_sort newer_first group with
  | [] => mkResolution [] []
  | first :: others => mkResolution [first] others
  end.

Definition identities (regs : list LayerRegistration) : list LayerIdentity :=
  remove_dups (identity <$> regs).

Definition group_by_identity (regs : list LayerRegistration)
  : list (list LayerRegistration) :=
  (λ i, List.filter (λ r, bool_decide (identity r = i)) regs) <$> identities regs.

(** Modelled from the spec: the Duplicate Resolver (in
    [geoserver_manager.py], not among the sources): group by identity,
    resolve each group. *)
Definition resolve (regs : list LayerRegistration) : Resolution :=
  let resolved := resolve_group <$> group_by_identity regs in
  mkResolution (concat (kept <$> resolved)) (concat (stale <$> resolved)).

(** *** Cleanup *)

(** The error with which deleting [name] fails, if it does; an absent
    layer counts as deleted. *)
Definition delete_error (faults : Faults) (now : Z) (name : string)
  : option PublishError :=
  match faults now (DeleteLayer name) with
  | Some e => match kind e with NotFound => None | _ => Some e end
  | None => None
  end.

(** Modelled from the spec: the deletion loop of the cleanup (in
    [geoserver_manager.py], not among the sources).  The stale
    registrations are deleted one after the other; a failure is
    recorded with the layer's name and the batch goes on. *)
Fixpoint delete_stale (faults : Faults) (now : Z)
    (candidates : list LayerRegistration) (g : t)
  : list (string * option PublishError) * t :=
  match candidates with
  | [] => ([], g)
  | r :: rest =>
      match deleteLayer faults now (externalName r) g with
      | inl e =>
          let '(items, g') := delete_stale faults now rest g in
          ((externalName r, Some e) :: items, g')
      | inr g1 =>
          let '(items, g') := delete_stale faults now rest g1 in
          ((externalName r, None) :: items, g')
      end
  end.

Definition failures_of (items : list (string * option PublishError))
  : list (string * PublishError) :=
  omap (λ it, match it.2 with Some e => Some (it.1, e) | None => None end) items.

Definition deleted_of (items : list (string * option PublishError)) : list string :=
  omap (λ it, match it.2 with Some _ => None | None => Some it.1 end) items.

(** The result dictionary of a cleanup of one country. *)
Record CleanupResult := mkCleanup {
  success : bool;
  error : option string;
  country : string;
  deleted : nat;
  kept_count : nat;
  items : list (string * option PublishError);
  failures : list (string * PublishError) }.

Definition cleanup_registrations (faults : Faults) (now : Z) (c : string)
    (regs : list LayerRegistration) (g : t) : CleanupResult * t :=
  let res := resolve regs in
  let '(its, g') := delete_stale faults now (stale res) g in
  (mkCleanup true None c (length (deleted_of its)) (length (kept res))
             its (failures_of its), g').

(** Modelled from the spec:
    [geoserver_manager.cleanup_duplicate_layers(country)], which is not
    among the sources: list the country's registrations, resolve,
    delete the stale ones, report. *)
Definition cleanup_duplicate_layers (faults : Faults) (now : Z) (c : string)
    (g : t) : CleanupResult * t :=
  match listLayers faults now (Some c) g with
  | inl e => (mkCleanup false (Some (detail e)) c 0 0 [] [], g)
  | inr regs => cleanup_registrations faults now c regs g
  end.

(** The result dictionary of a cleanup over all countries. *)
Record CleanupAllResult := mkCleanupAll {
  all_success : bool;
  all_error : option string;
  countries_processed : nat;
  total_deleted : nat;
  total_kept : nat;
  detailed_results : list CleanupResult }.

Definition countries (regs : list LayerRegistration) : list string :=
  remove_dups ((λ r, country_of (identity r)) <$> regs).

Fixpoint cleanup_countries (faults : Faults) (now : Z) (cs : list string)
    (regs : list LayerRegistration) (g : t) : list CleanupResult * t :=
  match cs with
  | [] => ([], g)
  | c :: rest =>
      let '(report, g1) :=
        cleanup_registrations faults now c (List.filter (in_country c) regs) g in
      let '(reports, g') := cleanup_countries faults now rest regs g1 in
      (report :: reports, g')
  end.

(** Modelled from the spec:
    [geoserver_manager.cleanup_all_duplicate_layers()], which is not
    among the sources: list everything, clean up country by country,
    report per country with the totals. *)
Definition cleanup_all_duplicate_layers (faults : Faults) (now : Z) (g : t)
  : CleanupAllResult * t :=
  match listLayers faults now None g with
  | inl e => (mkCleanupAll false (Some (detail e)) 0 0 0 [], g)
  | inr regs =>
      let '(reports, g') := cleanup_countries faults now (countries regs) regs g in
      (mkCleanupAll true None (length reports)
         (sum_list (deleted <$> reports)) (sum_list (kept_count <$> reports))
         reports, g')
  end.

(** Modelled from the spec: [geoserver_manager.get_all_layers()],
    which is not among the sources: the names of all registrations. *)
Definition get_all_layers (faults : Faults) (now : Z) (g : t)
  : PublishError + list string :=
  match listLayers faults now None g with
  | inl e => inl e
  | inr regs => inr (externalName <$> regs)
  end.

End GeoServer.

(** ** What the handlers receive, compute and return *)

Module Payload.

(** An uploaded file, as its bytes. *)
Definition UploadFile := string.

Record Statistics := mkStatistics { min : Json; max : Json; mean : Json }.

(** The dictionaries returned by the file processor. *)
Record ProcessedRaster := mkRaster { cog_path : string; statistics : Statistics }.
Record ProcessedEnergy := mkEnergy {
  energy_geojson_path : string;
  energy_icon_path : option string;
  energy_feature_count : Z }.
Record ProcessedBoundary := mkBoundary {
  boundary_geojson_path : string;
  boundary_feature_count : Z;
  boundary_bounds : Json }.

Inductive Processed :=
  | OfRaster (r : ProcessedRaster)
  | OfEnergy (r : ProcessedEnergy)
  | OfBoundary (r : ProcessedBoundary).

(** The entries of the country listing assembled by
    [get_country_layers]. *)
Record ClimateLayer := mkClimateLayer {
  cl_id : nat; cl_variable : string; cl_scenario : string;
  cl_year_range : option string; cl_season : option string;
  cl_statistics : Statistics; cl_classification : Json;
  cl_layer_name : string; cl_wms_url : string }.

Record GiriLayer := mkGiriLayer {
  gl_id : nat; gl_variable : string; gl_scenario : string;
  gl_statistics : Statistics; gl_classification : Json;
  gl_layer_name : string; gl_wms_url : string }.

Record EnergyLayer := mkEnergyLayer {
  el_id : nat; el_infrastructure_type : string;
  el_capacity_attribute : string; el_icon_path : option string;
  el_layer_name : string; el_wfs_url : string }.

Record BoundaryLayer := mkBoundaryLayer {
  bl_id : nat; bl_hover_attribute : string; bl_feature_count : Z;
  bl_bounds : Json; bl_layer_name : string; bl_wfs_url : string }.

Module CountryLayers.
Record t := mk {
  country : string;
  climate : list ClimateLayer;
  giri : list GiriLayer;
  energy : list EnergyLayer;
  boundaries : list BoundaryLayer }.
End CountryLayers.

End Payload.

(** ** The spatial cache

    [services/spatial_cache.py] is not among the sources.  The
    operations below follow the Metadata Cache of the specification;
    country listings and layer infos are the two kinds of key the
    handlers of [main.py] use. *)

Module SpatialCache.
Import Payload.

(** Modelled from the spec: the CacheEntry of [spatial_cache.py], which
    is not among the sources: a payload with the time it was stored and
    its ttl. *)
Record CacheEntry (P : Type) := mkEntry { payload : P; storedAt : Z; ttl : Z }.
Global Arguments mkEntry {P} payload storedAt ttl.
Global Arguments payload {P} _.
Global Arguments storedAt {P} _.
Global Arguments ttl {P} _.

Record t := mk {
  country_entries : gmap string (CacheEntry CountryLayers.t);
  layer_entries : gmap string (CacheEntry Processed) }.

Definition empty : t := mk ∅ ∅.

(** Modelled from the spec: the read of an entry (in [spatial_cache.py],
    not among the sources): the payload only while
    [now - storedAt < ttl], absent afterwards. *)
Definition fresh {P} (now : Z) (e : CacheEntry P) : option P :=
  if bool_decide (now - storedAt e < ttl e)%Z then Some (payload e) else None.

(** Modelled from the spec: [spatial_cache.get_country_layers(country)],
    which is not among the sources: the cache's [get] on the key of the
    country. *)
Definition get_country_layers (now : Z) (country : string) (c : t)
  : option CountryLayers.t :=
  country_entries c !! country ≫= fresh now.

(** Modelled from the spec:
    [spatial_cache.cache_country_layers(country, result)], which is not
    among the sources: the cache's [put], an unconditional overwrite of
    the entry of that country and of no other entry. *)
Definition cache_country_layers (now ttl : Z) (country : string)
    (result : CountryLayers.t) (c : t) : t :=
  mk (<[country := mkEntry result now ttl]> (country_entries c)) (layer_entries c).

(** Modelled from the spec:
    [spatial_cache.cache_layer_info(layer_name, result)], which is not
    among the sources: the cache's [put] on the key of the layer. *)
Definition cache_layer_info (now ttl : Z) (layer_name : string)
    (result : Processed) (c : t) : t :=
  mk (country_entries c) (<[layer_name := mkEntry result now ttl]> (layer_entries c)).

(** Modelled from the spec: the cache's [get] on the key of a layer (in
    [spatial_cache.py], not among the sources). *)
Definition get_layer_info (now : Z) (layer_name : string) (c : t)
  : option Processed :=
  layer_entries c !! layer_name ≫= fresh now.

End SpatialCache.

(** ** The application: [backend/main.py] *)

Module ClimateForm.
Record t := mk {
  file : Payload.UploadFile;
  country : string; variable : string; scenario : string;
  year_range : option string; season : option string;
  classification : string }.
End ClimateForm.

Module GiriForm.
Record t := mk {
  file : Payload.UploadFile;
  country : string; variable : string; scenario : string;
  classification : string }.
End GiriForm.

Module EnergyForm.
Record t := mk {
  file : Payload.UploadFile;
  country : string; infrastructure_type : string;
  capacity_attribute : string;
  icon : option Payload.UploadFile }.
End EnergyForm.

Module BoundaryForm.
Record t := mk {
  file : Payload.UploadFile;
  country : string; hover_attribute : string }.
End BoundaryForm.

Module App.
Import Codec Payload.

(** The calls a handler makes to its collaborators, in order. *)
Inductive Call :=
  | FileProcessor (kind : DatasetKind)
  | DbCommit (kind : DatasetKind)
  | DbQuery (kind : DatasetKind) (country : string)
  | PublishRaster (name : string)
  | PublishVector (name : string)
  | CacheGetCountry (country : string)
  | CachePutCountry (country : string)
  | CachePutLayer (layer_name : string)
  | CleanupDuplicates (country : string)
  | CleanupAllDuplicates
  | GetAllLayers.

Global Instance Call_eq_dec : EqDecision Call.
Proof. solve_decision. Defined.

(** The module-level objects of [main.py] ([geoserver_manager],
    [spatial_cache], the database behind [get_db]), the wall clock, and
    the trace of collaborator calls made so far. *)
Record World := mkWorld {
  db : Store.Database;
  geoserver : GeoServer.t;
  spatial_cache : SpatialCache.t;
  now : Z;
  calls : list Call }.

Definition with_db (d : Store.Database) (w : World) : World :=
  mkWorld d (geoserver w) (spatial_cache w) (now w) (calls w).
Definition with_geoserver (g : GeoServer.t) (w : World) : World :=
  mkWorld (db w) g (spatial_cache w) (now w) (calls w).
Definition with_cache (c : SpatialCache.t) (w : World) : World :=
  mkWorld (db w) (geoserver w) c (now w) (calls w).
Definition with_now (t : Z) (w : World) : World :=
  mkWorld (db w) (geoserver w) (spatial_cache w) t (calls w).
Definition with_calls (l : list Call) (w : World) : World :=
  mkWorld (db w) (geoserver w) (spatial_cache w) (now w) l.

Definition with_readiness (r : GeoServer.ReadinessState) (w : World) : World :=
  with_geoserver (GeoServer.with_readiness r (geoserver w)) w.

(** The process right after a start that found no boundary zip to
    import: [startup_event] has only scheduled [init_geoserver_later],
    which sleeps before it initializes the workspace, and requests are
    already served.  (With boundary zips present, the start also commits
    boundary rows and publishes layers named after the zip stems.) *)
Definition started (t : Z) : World :=
  mkWorld Store.empty (GeoServer.mk GeoServer.NotStarted [])
          SpatialCache.empty t [].

(** What lies outside [main.py] and outside the models above. *)
Record Collaborators := mkCollaborators {
  json_loads : string → Exc Json;
  process_climate_raster : ClimateForm.t → Json → Exc ProcessedRaster;
  process_giri_raster : GiriForm.t → Json → Exc ProcessedRaster;
  process_energy_shapefile : EnergyForm.t → Exc ProcessedEnergy;
  process_boundary_shapefile : BoundaryForm.t → Exc ProcessedBoundary;
  faults : GeoServer.Faults;
  get_wms_url : string → string;
  get_wfs_url : string → string;
  cache_ttl : Z }.

(** *** Handler bodies: state passing with exceptions *)

Definition M (A : Type) : Type := World → World * Exc A.

Global Instance M_ret : MRet M := λ A a w, (w, Return a).

Global Instance M_bind : MBind M := λ A B k m w,
  match m w with
  | (w', Return a) => k a w'
  | (w', Raise e) => (w', Raise e)
  end.

(** A step given by its effect on the world. *)
Definition act {A} (f : World → World * Exc A) : M A := f.

Definition raise {A} (msg : string) : M A := λ w, (w, Raise msg).

(** A pure call that may raise. *)
Definition eval {A} (r : Exc A) : M A := λ w, (w, r).

Definition trace (c : Call) : M unit :=
  λ w, (with_calls (calls w ++ [c]) w, Return tt).

(** [try: body  except Exception as e: raise HTTPException(500, detail e)].
    The [logger] calls of the handlers are not part of the model: they
    are taken to return.  (The [logger.error] of an except branch is
    given keyword arguments; where the logger in use refuses them, the
    client gets the status 500 all the same, without the detail.) *)
Definition try_except {A} (body : M A) (detail : string → string)
  : World → World * HttpResponse A :=
  λ w, match body w with
       | (w', Return a) => (w', Ok a)
       | (w', Raise e) => (w', HTTPException 500 (detail e))
       end.

(** [str(e)] of an [HTTPException]: status code, colon, detail. *)
Definition str_http_500 (detail : string) : string := "500: " +:+ detail.

Section Handlers.
Context (E : Collaborators).

(** [await file_processor.process_...(...)] *)
Definition file_processor {A} (kind : DatasetKind) (r : Exc A) : M A :=
  trace (FileProcessor kind);; eval r.

(** [db.merge(row); db.commit()]; the store is taken to accept the
    row. *)
Definition db_merge_commit (kind : DatasetKind) (row : Store.Row) : M unit :=
  trace (DbCommit kind);;
  act (λ w, (with_db (Store.commit (Store.merge row (Store.begin (db w)))) w, Return tt)).

(** [await geoserver_manager.publish_raster(name=..., file_path=...,
    classification=...)]; the manager returns the name of the layer it
    registered.  The classification styles the layer and is no part of
    a registration; [who] is the identity of the layer the handler
    publishes, which the registration records. *)
Definition publish_raster (who : LayerIdentity) (name file_path : string)
  : M string :=
  trace (PublishRaster name);;
  act (λ w, match GeoServer.publishRaster (faults E) (now w) who name file_path
               (geoserver w) with
       | inl e => (w, Raise (GeoServer.detail e))
       | inr g => (with_geoserver g w, Return name)
       end).

(** [await geoserver_manager.publish_vector(name=..., file_path=..., ...)];
    the attribute hints are no part of a registration. *)
Definition publish_vector (who : LayerIdentity) (name file_path : string)
  : M string :=
  trace (PublishVector name);;
  act (λ w, match GeoServer.publishVector (faults E) (now w) who name file_path
               (geoserver w) with
       | inl e => (w, Raise (GeoServer.detail e))
       | inr g => (with_geoserver g w, Return name)
       end).

(** [await spatial_cache.cache_layer_info(layer_name, result)]; the
    cache is taken to accept the entry. *)
Definition cache_layer_info (layer_name : string) (result : Processed) : M unit :=
  trace (CachePutLayer layer_name);;
  act (λ w, (with_cache (SpatialCache.cache_layer_info (now w) (cache_ttl E)
                      layer_name result (spatial_cache w)) w, Return tt)).

(** *** Upload handlers *)

Record RasterResponse := mkRasterResponse {
  rr_success : bool; rr_layer_name : string;
  rr_statistics : Statistics; rr_message : string }.

Record EnergyResponse := mkEnergyResponse {
  er_success : bool; er_layer_name : string;
  er_feature_count : Z; er_message : string }.

Record BoundaryResponse := mkBoundaryResponse {
  br_success : bool; br_layer_name : string;
  br_feature_count : Z; br_bounds : Json; br_message : string }.

(** [POST /api/upload/climate].  [json.loads(classification)] is written
    three times in the source; it is pure, so it is evaluated once here,
    where the source evaluates it first. *)
Definition upload_climate_data (form : ClimateForm.t)
  : World → World * HttpResponse RasterResponse :=
  let country := ClimateForm.country form in
  let variable := ClimateForm.variable form in
  let scenario := ClimateForm.scenario form in
  try_except
    (classification ← eval (json_loads E (ClimateForm.classification form));
     (* Process the file *)
     result ← file_processor climate (process_climate_raster E form classification);
     (* Store in database *)
     let climate_data :=
       ClimateData.mk country variable scenario
         (ClimateForm.year_range form) (ClimateForm.season form)
         (cog_path result)
         (min (statistics result)) (max (statistics result))
         (mean (statistics result)) classification in
     db_merge_commit climate (Store.ClimateRow climate_data);;
     (* Publish to GeoServer *)
     layer_name ← publish_raster (Climate country variable scenario)
                    (Codec.layer_name (Climate country variable scenario))
                    (cog_path result);
     (* Cache the result *)
     cache_layer_info layer_name (OfRaster result);;
     mret (mkRasterResponse true layer_name (statistics result)
            "Climate data uploaded and processed successfully"))
    (λ e, "Failed to process climate data: " +:+ e).

(** [POST /api/upload/giri] *)
Definition upload_giri_data (form : GiriForm.t)
  : World → World * HttpResponse RasterResponse :=
  let country := GiriForm.country form in
  let variable := GiriForm.variable form in
  let scenario := GiriForm.scenario form in
  try_except
    (classification ← eval (json_loads E (GiriForm.classification form));
     result ← file_processor giri (process_giri_raster E form classification);
     let giri_data :=
       GiriData.mk country variable scenario (cog_path result)
         (min (statistics result)) (max (statistics result))
         (mean (statistics result)) classification in
     db_merge_commit giri (Store.GiriRow giri_data);;
     layer_name ← publish_raster (Giri country variable scenario)
                    (Codec.layer_name (Giri country variable scenario))
                    (cog_path result);
     cache_layer_info layer_name (OfRaster result);;
     mret (mkRasterResponse true layer_name (statistics result)
            "GIRI data uploaded and processed successfully"))
    (λ e, "Failed to process GIRI data: " +:+ e).

(** [POST /api/upload/energy] *)
Definition upload_energy_data (form : EnergyForm.t)
  : World → World * HttpResponse EnergyResponse :=
  let country := EnergyForm.country form in
  let infrastructure_type := EnergyForm.infrastructure_type form in
  try_except
    (result ← file_processor energy (process_energy_shapefile E form);
     let energy_data :=
       EnergyData.mk country infrastructure_type (energy_geojson_path result)
         (EnergyForm.capacity_attribute form) (energy_icon_path result) in
     db_merge_commit energy (Store.EnergyRow energy_data);;
     layer_name ← publish_vector (Energy country infrastructure_type)
                    (Codec.layer_name (Energy country infrastructure_type))
                    (energy_geojson_path result);
     cache_layer_info layer_name (OfEnergy result);;
     mret (mkEnergyResponse true layer_name (energy_feature_count result)
            "Energy data uploaded and processed successfully"))
    (λ e, "Failed to process energy data: " +:+ e).

(** [POST /api/upload/boundary] *)
Definition upload_boundary_data (form : BoundaryForm.t)
  : World → World * HttpResponse BoundaryResponse :=
  let country := BoundaryForm.country form in
  try_except
    (result ← file_processor boundary (process_boundary_shapefile E form);
     let boundary_data :=
       BoundaryData.mk country (boundary_geojson_path result)
         (BoundaryForm.hover_attribute form)
         (boundary_feature_count result) (boundary_bounds result) in
     db_merge_commit boundary (Store.BoundaryRow boundary_data);;
     layer_name ← publish_vector (Boundary country)
                    (Codec.layer_name (Boundary country))
                    (boundary_geojson_path result);
     cache_layer_info layer_name (OfBoundary result);;
     mret (mkBoundaryResponse true layer_name (boundary_feature_count result)
            (boundary_bounds result)
            "Boundary data uploaded and processed successfully"))
    (λ e, "Failed to process boundary data: " +:+ e).

(** *** Reading the layers of a country *)

Definition db_query_climate (country : string) : M (list (nat * ClimateData.t)) :=
  trace (DbQuery climate country);;
  act (λ w, (w, Return (Store.query_climate country (db w)))).
Definition db_query_giri (country : string) : M (list (nat * GiriData.t)) :=
  trace (DbQuery giri country);;
  act (λ w, (w, Return (Store.query_giri country (db w)))).
Definition db_query_energy (country : string) : M (list (nat * EnergyData.t)) :=
  trace (DbQuery energy country);;
  act (λ w, (w, Return (Store.query_energy country (db w)))).
Definition db_query_boundary (country : string) : M (list (nat * BoundaryData.t)) :=
  trace (DbQuery boundary country);;
  act (λ w, (w, Return (Store.query_boundary country (db w)))).

(** [await spatial_cache.cache_country_layers(country, result)] *)
Definition cache_country_layers (country : string) (result : CountryLayers.t)
  : M unit :=
  trace (CachePutCountry country);;
  act (λ w, (with_cache (SpatialCache.cache_country_layers (now w) (cache_ttl E)
                           country result (spatial_cache w)) w, Return tt)).

Definition climate_entry (country : string) (row : nat * ClimateData.t)
  : ClimateLayer :=
  let layer := row.2 in
  let name := Codec.layer_name
                (Climate country (ClimateData.variable layer) (ClimateData.scenario layer)) in
  mkClimateLayer row.1 (ClimateData.variable layer) (ClimateData.scenario layer)
    (ClimateData.year_range layer) (ClimateData.season layer)
    (mkStatistics (ClimateData.min_value layer) (ClimateData.max_value layer)
                  (ClimateData.mean_value layer))
    (ClimateData.classification layer) name (get_wms_url E name).

Definition giri_entry (country : string) (row : nat * GiriData.t) : GiriLayer :=
  let layer := row.2 in
  let name := Codec.layer_name
                (Giri country (GiriData.variable layer) (GiriData.scenario layer)) in
  mkGiriLayer row.1 (GiriData.variable layer) (GiriData.scenario layer)
    (mkStatistics (GiriData.min_value layer) (GiriData.max_value layer)
                  (GiriData.mean_value layer))
    (GiriData.classification layer) name (get_wms_url E name).

Definition energy_entry (country : string) (row : nat * EnergyData.t)
  : EnergyLayer :=
  let layer := row.2 in
  let name := Codec.layer_name
                (Energy country (EnergyData.infrastructure_type layer)) in
  mkEnergyLayer row.1 (EnergyData.infrastructure_type layer)
    (EnergyData.capacity_attribute layer) (EnergyData.icon_path layer)
    name (get_wfs_url E name).

Definition boundary_entry (country : string) (row : nat * BoundaryData.t)
  : BoundaryLayer :=
  let layer := row.2 in
  let name := Codec.layer_name (Boundary country) in
  mkBoundaryLayer row.1 (BoundaryData.hover_attribute layer)
    (BoundaryData.feature_count layer) (BoundaryData.bounds layer)
    name (get_wfs_url E name).

(** The listing of a country as the four tables give it. *)
Definition assemble (country : string) (d : Store.Database) : CountryLayers.t :=
  CountryLayers.mk country
    (climate_entry country <$> Store.query_climate country d)
    (giri_entry country <$> Store.query_giri country d)
    (energy_entry country <$> Store.query_energy country d)
    (boundary_entry country <$> Store.query_boundary country d).

(** [GET /api/layers/{country}].  A listing found in the cache is a
    dictionary with five keys, hence true in [if cached_result:]. *)
Definition get_country_layers (country : string)
  : World → World * HttpResponse CountryLayers.t :=
  λ w,
    (* Check cache first *)
    let w := with_calls (calls w ++ [CacheGetCountry country]) w in
    match SpatialCache.get_country_layers (now w) country (spatial_cache w) with
    | Some cached_result => (w, Ok cached_result)
    | None =>
        try_except
          ((* Query all data types for the country *)
           climate_layers ← db_query_climate country;
           giri_layers ← db_query_giri country;
           energy_layers ← db_query_energy country;
           boundary_layers ← db_query_boundary country;
           let result :=
             CountryLayers.mk country
               (climate_entry country <$> climate_layers)
               (giri_entry country <$> giri_layers)
               (energy_entry country <$> energy_layers)
               (boundary_entry country <$> boundary_layers) in
           (* Cache the result *)
           cache_country_layers country result;;
           mret result)
          (λ e, "Failed to get layers: " +:+ e) w
    end.

(** *** Cleanup and listing handlers *)

Record CleanupResponse := mkCleanupResponse {
  cr_success : bool; cr_message : string;
  cr_details : GeoServer.CleanupResult }.

Record CleanupAllResponse := mkCleanupAllResponse {
  ca_success : bool; ca_message : string;
  ca_countries_processed : nat; ca_total_deleted : nat; ca_total_kept : nat;
  ca_details : list GeoServer.CleanupResult }.

Record LayersResponse := mkLayersResponse {
  lr_success : bool; lr_layers : list string; lr_count : nat }.

(** [await geoserver_manager.cleanup_duplicate_layers(country)] *)
Definition cleanup_duplicate_layers (country : string)
  : M GeoServer.CleanupResult :=
  trace (CleanupDuplicates country);;
  act (λ w, let '(result, g) :=
              GeoServer.cleanup_duplicate_layers (faults E) (now w) country
                (geoserver w) in
            (with_geoserver g w, Return result)).

(** [await geoserver_manager.cleanup_all_duplicate_layers()] *)
Definition cleanup_all_duplicate_layers : M GeoServer.CleanupAllResult :=
  trace CleanupAllDuplicates;;
  act (λ w, let '(result, g) :=
              GeoServer.cleanup_all_duplicate_layers (faults E) (now w)
                (geoserver w) in
            (with_geoserver g w, Return result)).

(** [await geoserver_manager.get_all_layers()] *)
Definition get_all_layers : M (list string) :=
  trace GetAllLayers;;
  act (λ w, match GeoServer.get_all_layers (faults E) (now w) (geoserver w) with
            | inl e => (w, Raise (GeoServer.detail e))
            | inr names => (w, Return names)
            end).

(** [POST /api/cleanup/layers/{country}].  The [HTTPException] raised in
    the [else] branch is itself caught by [except Exception]. *)
Definition cleanup_country_layers (country : string)
  : World → World * HttpResponse CleanupResponse :=
  try_except
    (result ← cleanup_duplicate_layers country;
     if GeoServer.success result then
       mret (mkCleanupResponse true
               ("Successfully cleaned up layers for " +:+ country) result)
     else
       raise (str_http_500
                ("Layer cleanup failed: " +:+ str_opt (GeoServer.error result))))
    (λ e, "Layer cleanup error: " +:+ e).

(** [POST /api/cleanup/layers/all] *)
Definition cleanup_all_layers : World → World * HttpResponse CleanupAllResponse :=
  try_except
    (result ← cleanup_all_duplicate_layers;
     if GeoServer.all_success result then
       mret (mkCleanupAllResponse true
               "Successfully cleaned up all duplicate layers"
               (GeoServer.countries_processed result)
               (GeoServer.total_deleted result)
               (GeoServer.total_kept result)
               (GeoServer.detailed_results result))
     else
       raise (str_http_500
                ("Full layer cleanup failed: " +:+ str_opt (GeoServer.all_error result))))
    (λ e, "Full layer cleanup error: " +:+ e).

(** [GET /api/layers/list] *)
Definition list_all_layers : World → World * HttpResponse LayersResponse :=
  try_except
    (layers ← get_all_layers;
     mret (mkLayersResponse true layers (length layers)))
    (λ e, "Error getting layers: " +:+ e).

(** *** The four upload operations as one *)

Inductive UploadRequest :=
  | UploadClimate (form : ClimateForm.t)
  | UploadGiri (form : GiriForm.t)
  | UploadEnergy (form : EnergyForm.t)
  | UploadBoundary (form : BoundaryForm.t).

Inductive UploadResponse :=
  | RasterBody (r : RasterResponse)
  | EnergyBody (r : EnergyResponse)
  | BoundaryBody (r : BoundaryResponse).

Definition request_identity (req : UploadRequest) : LayerIdentity :=
  match req with
  | UploadClimate f =>
      Climate (ClimateForm.country f) (ClimateForm.variable f) (ClimateForm.scenario f)
  | UploadGiri f =>
      Giri (GiriForm.country f) (GiriForm.variable f) (GiriForm.scenario f)
  | UploadEnergy f =>
      Energy (EnergyForm.country f) (EnergyForm.infrastructure_type f)
  | UploadBoundary f => Boundary (BoundaryForm.country f)
  end.

Definition respond {A B} (f : A → B) (r : World * HttpResponse A)
  : World * HttpResponse B :=
  (r.1, match r.2 with
        | Ok a => Ok (f a)
        | HTTPException status detail => HTTPException status detail
        end).

Definition upload (req : UploadRequest) (w : World)
  : World * HttpResponse UploadResponse :=
  match req with
  | UploadClimate f => respond RasterBody (upload_climate_data f w)
  | UploadGiri f => respond RasterBody (upload_giri_data f w)
  | UploadEnergy f => respond EnergyBody (upload_energy_data f w)
  | UploadBoundary f => respond BoundaryBody (upload_boundary_data f w)
  end.

(** Whether the file processing of a request goes through, which the
    collaborators alone decide. *)
Definition processing_succeeds (req : UploadRequest) : bool :=
  match req with
  | UploadClimate f =>
      match json_loads E (ClimateForm.classification f) with
      | Return c =>
          match process_climate_raster E f c with Return _ => true | Raise _ => false end
      | Raise _ => false
      end
  | UploadGiri f =>
      match json_loads E (GiriForm.classification f) with
      | Return c =>
          match process_giri_raster E f c with Return _ => true | Raise _ => false end
      | Raise _ => false
      end
  | UploadEnergy f =>
      match process_energy_shapefile E f with Return _ => true | Raise _ => false end
  | UploadBoundary f =>
      match process_boundary_shapefile E f with Return _ => true | Raise _ => false end
  end.

(** The publish call an upload makes for its layer. *)
Definition publish_call (req : UploadRequest) : Call :=
  match req with
  | UploadClimate _ | UploadGiri _ =>
      PublishRaster (Codec.layer_name (request_identity req))
  | UploadEnergy _ | UploadBoundary _ =>
      PublishVector (Codec.layer_name (request_identity req))
  end.

Definition service_call (req : UploadRequest) : GeoServer.ServiceCall :=
  match req with
  | UploadClimate _ | UploadGiri _ =>
      GeoServer.PublishRaster (Codec.layer_name (request_identity req))
  | UploadEnergy _ | UploadBoundary _ =>
      GeoServer.PublishVector (Codec.layer_name (request_identity req))
  end.

Definition response_layer_name (r : UploadResponse) : string :=
  match r with
  | RasterBody b => rr_layer_name b
  | EnergyBody b => er_layer_name b
  | BoundaryBody b => br_layer_name b
  end.

End Handlers.

(** The same collaborators with another behaviour of the map service. *)
Definition with_faults (f : GeoServer.Faults) (E : Collaborators) : Collaborators :=
  mkCollaborators (json_loads E) (process_climate_raster E)
    (process_giri_raster E) (process_energy_shapefile E)
    (process_boundary_shapefile E) f (get_wms_url E) (get_wfs_url E)
    (cache_ttl E).

End App.

(** ** A concrete environment, for running the handlers *)

Module Demo.
Import Codec Payload App.

Definition stats : Statistics :=
  mkStatistics (JNum "11.2") (JNum "34.9") (JNum "24.1").

Definition no_faults : GeoServer.Faults := λ _ _, None.


(** Deleting the layer [name] times out, every other call goes
    through. *)
Definition delete_times_out (name : string) : GeoServer.Faults :=
  λ _ call,
    match call with
    | GeoServer.DeleteLayer n =>
        if bool_decide (n = name)
        then Some (GeoServer.mkError GeoServer.Unreachable "timed out")
        else None
    | _ => None
    end.

Definition env (f : GeoServer.Faults) : Collaborators :=
  mkCollaborators
    (λ _, Return (JObj []))
    (λ form _, Return (mkRaster "/data/cog/climate.tif" stats))
    (λ form _, Return (mkRaster "/data/cog/giri.tif" stats))
    (λ form, Return (mkEnergy "/data/energy.geojson" None 12))
    (λ form, Return (mkBoundary "/data/boundary.geojson" 17 JNull))
    f
    (λ name, "/geoserver/wms?layers=" +:+ name)
    (λ name, "/geoserver/wfs?typeName=" +:+ name)
    3600.

Definition laos_temp_rcp45 : ClimateForm.t :=
  ClimateForm.mk "tif" "laos" "temp" "rcp45" None None "{}".

Definition t1 : GeoServer.LayerRegistration :=
  GeoServer.mkRegistration "laos_temp_rcp45_t1" (Climate "laos" "temp" "rcp45")
    20240101 "/data/cog/a.tif".
Definition t2 : GeoServer.LayerRegistration :=
  GeoServer.mkRegistration "laos_temp_rcp45_t2" (Climate "laos" "temp" "rcp45")
    20240201 "/data/cog/b.tif".

Definition b1 : GeoServer.LayerRegistration :=
  GeoServer.mkRegistration "bhutan_boundary_t1" (Boundary "bhutan")
    20240105 "/data/a.geojson".
Definition b2 : GeoServer.LayerRegistration :=
  GeoServer.mkRegistration "bhutan_boundary_t2" (Boundary "bhutan")
    20240205 "/data/b.geojson".
Definition n1 : GeoServer.LayerRegistration :=
  GeoServer.mkRegistration "nepal_solar_energy_t1" (Energy "nepal" "solar")
    20240110 "/data/c.geojson".
Definition n2 : GeoServer.LayerRegistration :=
  GeoServer.mkRegistration "nepal_solar_energy_t2" (Energy "nepal" "solar")
    20240210 "/data/d.geojson".

(** Three countries, each with a layer registered twice. *)
Definition three_countries : list GeoServer.LayerRegistration :=
  [b1; t1; n1; b2; t2; n2].

(** A running service that holds two registrations of one layer under
    older names. *)
Definition duplicates_world : World :=
  mkWorld Store.empty (GeoServer.mk GeoServer.Ready [t1; t2])
          SpatialCache.empty 20240301 [].

(** A running service holding those registrations; deleting the stale
    layer of the second country times out. *)
Definition cleanup_world : World :=
  mkWorld Store.empty (GeoServer.mk GeoServer.Ready three_countries)
          SpatialCache.empty 20240301 [].

Definition cleanup_env : Collaborators := env (delete_times_out "laos_temp_rcp45_t1").

End Demo.

(** ** The route table

    The decorators of [main.py], in the order they are executed.  The
    framework's router tries the routes in registration order: a route
    whose path pattern matches and whose method is the request's is a
    full match and its endpoint is called at once; a route whose path
    matches under another method is remembered as a partial match and
    answers 405 only if no later route matches fully.  A [{name}]
    parameter matches one or more characters other than the slash, a
    [{name:path}] parameter matches the rest of the path.  Every parameter
    of this table fills a whole segment between slashes, so patterns and
    request paths are compared segment by segment.  The documentation
    routes the framework registers by itself lie outside /api and are
    left out. *)

Module Routing.

Inductive Method := GET | POST | PUT | DELETE | PATCH | HEAD | OPTIONS.

Global Instance Method_eq_dec : EqDecision Method.
Proof. solve_decision. Defined.

Inductive Endpoint :=
  | root | test_endpoint | health_check
  | upload_climate_data | upload_giri_data
  | upload_energy_data | upload_boundary_data
  | get_country_layers | proxy_geoserver
  | cleanup_country_layers | cleanup_all_layers | list_all_layers.

Global Instance Endpoint_eq_dec : EqDecision Endpoint.
Proof. solve_decision. Defined.

Inductive Segment :=
  | Lit (text : string)
  | Param (name : string)
  | PathParam (name : string).

Definition slash : ascii := "/"%char.

(** [path.split("/")] *)
Fixpoint split_slash (s : string) : list string :=
  match s with
  | EmptyString => [""]
  | String c s' =>
      if bool_decide (c = slash) then "" :: split_slash s'
      else match split_slash s' with
           | h :: t => String c h :: t
           | [] => [String c ""]
           end
  end.

(** ["/".join(segments)] *)
Fixpoint join_slash (segments : list string) : string :=
  match segments with
  | [] => ""
  | [s] => s
  | s :: rest => s +:+ "/" +:+ join_slash rest
  end.

Fixpoint strip_suffix (suffix s : string) : option string :=
  if bool_decide (s = suffix) then Some ""
  else match s with
       | EmptyString => None
       | String c s' => String c <$> strip_suffix suffix s'
       end.

(** One segment of a path template. *)
Definition segment_of (s : string) : Segment :=
  match s with
  | String "{" inner =>
      match strip_suffix ":path}" inner with
      | Some name => PathParam name
      | None =>
          match strip_suffix "}" inner with
          | Some name => Param name
          | None => Lit s
          end
      end
  | _ => Lit s
  end.

Definition compile_path (template : string) : list Segment :=
  segment_of <$> split_slash template.

Record Route := mkRoute {
  method : Method;
  template : string;
  endpoint : Endpoint }.

(** [@app.get(...)] and [@app.post(...)], top to bottom. *)
Definition routes : list Route :=
  [ mkRoute GET "/" root;
    mkRoute GET "/api/test" test_endpoint;
    mkRoute GET "/api/health" health_check;
    mkRoute POST "/api/upload/climate" upload_climate_data;
    mkRoute POST "/api/upload/giri" upload_giri_data;
    mkRoute POST "/api/upload/energy" upload_energy_data;
    mkRoute POST "/api/upload/boundary" upload_boundary_data;
    mkRoute GET "/api/layers/{country}" get_country_layers;
    mkRoute GET "/api/geoserver/{workspace}/{path:path}" proxy_geoserver;
    mkRoute POST "/api/cleanup/layers/{country}" cleanup_country_layers;
    mkRoute POST "/api/cleanup/layers/all" cleanup_all_layers;
    mkRoute GET "/api/layers/list" list_all_layers ].

Definition Params := list (string * string).

(** Matching a compiled pattern against the segments of a request
    path; the result binds the parameters.  The router matches with
    regular expressions, which treat a line break in the path
    specially; paths with one are outside this model. *)
Fixpoint match_segments (pattern : list Segment) (segments : list string)
  : option Params :=
  match pattern, segments with
  | [], [] => Some []
  | Lit text :: pattern', s :: segments' =>
      if bool_decide (s = text) then match_segments pattern' segments' else None
  | Param name :: pattern', s :: segments' =>
      if bool_decide (s = "") then None
      else ((name, s) ::.) <$> match_segments pattern' segments'
  | [PathParam name], _ :: _ => Some [(name, join_slash segments)]
  | _, _ => None
  end.

Inductive Match :=
  | NONE
  | PARTIAL
  | FULL (params : Params).

(** [route.matches(scope)] *)
Definition matches (r : Route) (m : Method) (path : string) : Match :=
  match match_segments (compile_path (template r)) (split_slash path) with
  | None => NONE
  | Some params => if bool_decide (method r = m) then FULL params else PARTIAL
  end.

Inductive Dispatch :=
  | Invoke (e : Endpoint) (params : Params)
  | MethodNotAllowed
  | NotFound.

(** The router's loop over the routes; [partial] tells whether an
    earlier route matched the path under another method. *)
Fixpoint route_request (table : list Route) (partial : bool)
    (m : Method) (path : string) : Dispatch :=
  match table with
  | [] => if partial then MethodNotAllowed else NotFound
  | r :: rest =>
      match matches r m path with
      | FULL params => Invoke (endpoint r) params
      | PARTIAL => route_request rest true m path
      | NONE => route_request rest partial m path
      end
  end.

Definition dispatch (m : Method) (path : string) : Dispatch :=
  route_request routes false m path.

(** The endpoint is reachable when some request is dispatched to it. *)
Definition reachable (e : Endpoint) : Prop :=
  ∃ m path params, dispatch m path = Invoke e params.

End Routing.

(** ** Boundary files found at startup

    The name computations of [initialize_existing_boundaries]: the layer
    name made from the stem of a zip file, and the country and hover
    attribute read off that name. *)

Module Boundaries.
Import Codec.

Definition is_upper (c : ascii) : bool :=
  let n := Ascii.nat_of_ascii c in (65 <=? n)%nat && (n <=? 90)%nat.

Definition is_ascii_char (c : ascii) : bool :=
  (Ascii.nat_of_ascii c <? 128)%nat.

(** Text without characters beyond ASCII. *)
Definition is_ascii (s : string) : bool := all_chars is_ascii_char s.

Fixpoint map_chars (f : ascii → ascii) (s : string) : string :=
  match s with
  | EmptyString => EmptyString
  | String c s' => String (f c) (map_chars f s')
  end.

Definition lower_char (c : ascii) : ascii :=
  if is_upper c then Ascii.ascii_of_nat (Ascii.nat_of_ascii c + 32) else c.

(** [s.lower()] on ASCII text, where only the letters A to Z change. *)
Definition lower (s : string) : string := map_chars lower_char s.

(** [s.replace(old, new)] for one-character [old] and [new]. *)
Definition replace_char (old new : ascii) (s : string) : string :=
  map_chars (λ c, if bool_decide (c = old) then new else c) s.

(** [zip_path.stem.lower().replace(" ", "_").replace("-", "_")] *)
Definition boundary_layer_name (stem : string) : string :=
  replace_char "-" "_" (replace_char " " "_" (lower stem)).

Fixpoint is_prefix (p s : string) : bool :=
  match p, s with
  | EmptyString, _ => true
  | String a p', String b s' => bool_decide (a = b) && is_prefix p' s'
  | String _ _, EmptyString => false
  end.

(** [needle in hay] *)
Fixpoint contains (needle hay : string) : bool :=
  is_prefix needle hay ||
  match hay with
  | EmptyString => false
  | String _ hay' => contains needle hay'
  end.

(** [s.split("_")[0]] *)
Fixpoint first_segment (s : string) : string :=
  match s with
  | EmptyString => EmptyString
  | String c s' =>
      if bool_decide (c = underscore) then EmptyString
      else String c (first_segment s')
  end.

(** ["bhutan" if "bhutan" in layer_name.lower() or "dzongkhag" in
    layer_name.lower() else layer_name.split("_")[0]] *)
Definition boundary_country (layer_name : string) : string :=
  if contains "bhutan" (lower layer_name) || contains "dzongkhag" (lower layer_name)
  then "bhutan"
  else first_segment layer_name.

(** ["dzongkhag" if "dzongkhag" in layer_name.lower() else country] *)
Definition boundary_hover_attribute (layer_name country : string) : string :=
  if contains "dzongkhag" (lower layer_name) then "dzongkhag" else country.

(** The characters a stem may have for its layer name to be a legal
    identifier: letters, digits, space, hyphen, underscore. *)
Definition normalizable_char (c : ascii) : bool :=
  is_upper c || legal_char c ||
  bool_decide (c = " "%char) || bool_decide (c = "-"%char).

(** No uppercase letter, no space, no hyphen. *)
Definition normal_char (c : ascii) : bool :=
  negb (is_upper c) && negb (bool_decide (c = " "%char)) &&
  negb (bool_decide (c = "-"%char)).

End Boundaries.

(** ** The mask scripts: cleaning attribute text

    The string columns of [data/processed/mongolia_mask_create.py].
    Text is a sequence of Unicode code points here, as the replacements
    are on single accented letters. *)

Module MaskScript.

Definition Text := list N.

(** [s.replace(old, new)] for one-character [old] and [new]. *)
Definition replace (old new : N) (s : Text) : Text :=
  (λ c, if bool_decide (c = old) then new else c) <$> s.

(** [s.encode('ascii', errors='ignore').decode('ascii')] *)
Definition ascii_only (s : Text) : Text :=
  List.filter (λ c, bool_decide (c < 128)%N) s.

(** The eight [str.replace] calls, top to bottom, then the removal of
    what is still not ASCII. *)
Definition clean (s : Text) : Text :=
  ascii_only
    (replace 0xF6 111 (* o-diaeresis to o *)
    (replace 0xE4 97  (* a-diaeresis to a *)
    (replace 0xFC 117 (* u-diaeresis to u *)
    (replace 0xEE 105 (* i-circumflex to i *)
    (replace 0xFB 117 (* u-circumflex to u *)
    (replace 0xF4 111 (* o-circumflex to o *)
    (replace 0xEA 101 (* e-circumflex to e *)
    (replace 0xE2 97  (* a-circumflex to a *) s)))))))).

(** What becomes of one character: an ASCII character stays, one of the
    eight accented letters becomes its base letter, anything else
    goes. *)
Definition clean_char (c : N) : option N :=
  if bool_decide (c < 128)%N then Some c
  else if bool_decide (c = 0xE2 ∨ c = 0xE4)%N then Some 97%N
  else if bool_decide (c = 0xEA)%N then Some 101%N
  else if bool_decide (c = 0xEE)%N then Some 105%N
  else if bool_decide (c = 0xF4 ∨ c = 0xF6)%N then Some 111%N
  else if bool_decide (c = 0xFB ∨ c = 0xFC)%N then Some 117%N
  else None.

End MaskScript.

(** ** The proxy to the map service: [proxy_geoserver] *)

Module Proxy.

Definition default_geoserver_url : string := "http://localhost:8081/geoserver".

(** [os.getenv("GEOSERVER_URL", "http://localhost:8081/geoserver")] *)
Definition geoserver_base_url (env : option string) : string :=
  default default_geoserver_url env.

(** [f"{geoserver_base_url}/{workspace}/{path}"] *)
Definition geoserver_url (base workspace path : string) : string :=
  base +:+ "/" +:+ workspace +:+ "/" +:+ path.

(** ["?" + str(request.url.query) if request.url.query else ""] *)
Definition query_params (query : string) : string :=
  match query with
  | EmptyString => ""
  | _ => "?" +:+ query
  end.

Definition full_url (env : option string) (workspace path query : string) : string :=
  geoserver_url (geoserver_base_url env) workspace path +:+ query_params query.

(** [GET /api/geoserver/{workspace}/{path:path}]; [fetch] stands for the
    HTTP client: the JSON body of the answer to a GET, or the error
    raised on the way.  The [logger.error] call of the except branch is
    not part of the model. *)
Definition proxy_geoserver (fetch : string → Exc Json) (env : option string)
    (workspace path query : string) : HttpResponse Json :=
  match fetch (full_url env workspace path query) with
  | Return body => Ok body
  | Raise e => HTTPException 500 ("GeoServer proxy error: " +:+ e)
  end.

End Proxy.

(** ** Derived notions used to state facts about routes and handlers *)

Module Derived.
Import Codec Payload App Routing.

(** The method of the decorator that registers an endpoint. *)
Definition endpoint_method (e : Endpoint) : Method :=
  match e with
  | upload_climate_data | upload_giri_data
  | upload_energy_data | upload_boundary_data
  | cleanup_country_layers | cleanup_all_layers => POST
  | _ => GET
  end.

(** The fields of an identity that are followed by a separator in its
    name: all but the last. *)
Definition leading_fields (i : LayerIdentity) : list string :=
  match i with
  | Climate c v _ | Giri c v _ => [c; v]
  | Energy c _ => [c]
  | Boundary _ => []
  end.

Definition slash_free (s : string) : bool :=
  all_chars (λ c, negb (bool_decide (c = slash))) s.

(** The layer names a country listing shows. *)
Definition listing_names (l : CountryLayers.t) : list string :=
  (cl_layer_name <$> CountryLayers.climate l) ++
  (gl_layer_name <$> CountryLayers.giri l) ++
  (el_layer_name <$> CountryLayers.energy l) ++
  (bl_layer_name <$> CountryLayers.boundaries l).

Definition request_kind (req : UploadRequest) : DatasetKind :=
  kind_of (request_identity req).

(** The identity of the layer a metadata row describes. *)
Definition row_identity (row : Store.Row) : LayerIdentity :=
  match row with
  | Store.ClimateRow r =>
      Climate (ClimateData.country r) (ClimateData.variable r) (ClimateData.scenario r)
  | Store.GiriRow r =>
      Giri (GiriData.country r) (GiriData.variable r) (GiriData.scenario r)
  | Store.EnergyRow r =>
      Energy (EnergyData.country r) (EnergyData.infrastructure_type r)
  | Store.BoundaryRow r => Boundary (BoundaryData.country r)
  end.

(** Whether [json.loads(classification)] goes through; the energy and
    boundary forms have no classification. *)
Definition parses (E : Collaborators) (req : UploadRequest) : bool :=
  match req with
  | UploadClimate f =>
      match json_loads E (ClimateForm.classification f) with
      | Return _ => true | Raise _ => false
      end
  | UploadGiri f =>
      match json_loads E (GiriForm.classification f) with
      | Return _ => true | Raise _ => false
      end
  | UploadEnergy _ | UploadBoundary _ => true
  end.

(** The collaborator calls of an upload that runs to its end, in the
    order of the handler's body. *)
Definition upload_steps (req : UploadRequest) : list Call :=
  let k := request_kind req in
  [FileProcessor k; DbCommit k; publish_call req;
   CachePutLayer (Codec.layer_name (request_identity req))].

Definition newline : ascii := Ascii.ascii_of_nat 10.

(** A path without line breaks. *)
Definition newline_free (s : string) : bool :=
  all_chars (λ c, negb (bool_decide (c = newline))) s.

(** Every cached listing sits under the key of the country it is the
    listing of. *)
Definition well_keyed (c : SpatialCache.t) : Prop :=
  ∀ key entry,
    SpatialCache.country_entries c !! key = Some entry →
    CountryLayers.country (SpatialCache.payload entry) = key.

End Derived.

(** ** Facts about the codec *)

Module CodecFacts.
Import Codec.

Lemma all_chars_app p s t :
  all_chars p (s +:+ t) = all_chars p s && all_chars p t.
Proof.
  induction s as [|c s IH]; simpl; [done|].
  by rewrite IH, andb_assoc.
Qed.

Lemma identity_tuple_inj i j : identity_tuple i = identity_tuple j → i = j.
Proof. destruct i, j; simpl; intros [=]; by subst. Qed.

(** Reading a separator-free prefix back from a composed name. *)
Lemma prefix_unique a b x y :
  underscore_free a = true → underscore_free b = true →
  a +:+ String underscore x = b +:+ String underscore y →
  a = b ∧ x = y.
Proof.
  revert b. induction a as [|c a IH]; intros [|d b] Ha Hb; simpl in *.
  - intros [=]. done.
  - intros [= <- _]. apply andb_prop in Hb as [Hb _].
    by rewrite bool_decide_eq_true_2 in Hb.
  - intros [= -> _]. apply andb_prop in Ha as [Ha _].
    by rewrite bool_decide_eq_true_2 in Ha.
  - intros [= <- E]. apply andb_prop in Ha as [_ Ha].
    apply andb_prop in Hb as [_ Hb].
    destruct (IH b Ha Hb E) as [-> ->]. done.
Qed.

(** A separator-free string is not a composed name. *)
Lemma free_not_composed a b y :
  underscore_free a = true → a ≠ b +:+ String underscore y.
Proof.
  revert b. induction a as [|c a IH]; intros [|d b] Ha; simpl in *; try done.
  - intros [= -> _]. apply andb_prop in Ha as [Ha _].
    by rewrite bool_decide_eq_true_2 in Ha.
  - intros [= _ E]. apply andb_prop in Ha as [_ Ha]. by eapply IH.
Qed.


Lemma join_underscore_inj a l b m :
  underscore_free a = true → forallb underscore_free l = true →
  underscore_free b = true → forallb underscore_free m = true →
  join_underscore a l = join_underscore b m → a = b ∧ l = m.
Proof.
  revert a b m. induction l as [|x l IH]; intros a b [|y m] Ha Hl Hb Hm; simpl.
  - done.
  - intros E. by apply free_not_composed in E.
  - intros E. symmetry in E. by apply free_not_composed in E.
  - simpl in Hl, Hm. apply andb_prop in Hl as [Hx Hl].
    apply andb_prop in Hm as [Hy Hm].
    intros E. apply prefix_unique in E as [-> E]; [|done..].
    destruct (IH x y m Hx Hl Hy Hm E) as [-> ->]. done.
Qed.

Lemma layer_name_segments i :
  layer_name i = join_underscore (segments i).1 (segments i).2.
Proof.
  by destruct i.
Qed.

Lemma separable_segments i :
  separable i = true →
  underscore_free (segments i).1 = true ∧
  forallb underscore_free (segments i).2 = true.
Proof.
  unfold separable. intros [Hf _]%andb_prop.
  destruct i; simpl in *;
    repeat match goal with
           | H : _ && _ = true |- _ => apply andb_prop in H as [? ?]
           end;
    split; try done; repeat (apply andb_true_intro; split); done.
Qed.

Lemma separable_layer_name_inj i j :
  separable i = true → separable j = true →
  layer_name i = layer_name j → i = j.
Proof.
  intros Hi Hj. rewrite !layer_name_segments.
  destruct (separable_segments i Hi) as [Hi1 Hi2].
  destruct (separable_segments j Hj) as [Hj1 Hj2].
  intros E. apply join_underscore_inj in E as [E1 E2]; [|done..].
  unfold separable in Hi, Hj.
  apply andb_prop in Hi as [_ Hi]. apply andb_prop in Hj as [_ Hj].
  destruct i, j; simpl in *; by simplify_eq.
Qed.

(** C1, as stated, fails: a climate upload whose scenario ends in the
    giri suffix and a giri upload are different identities and get the
    same external name. *)
Lemma layer_name_collision :
  identity_tuple (Climate "laos" "temp" "rcp45_giri")
    ≠ identity_tuple (Giri "laos" "temp" "rcp45") ∧
  layer_name (Climate "laos" "temp" "rcp45_giri")
    = layer_name (Giri "laos" "temp" "rcp45").
Proof. split; [discriminate | reflexivity]. Qed.

(** C1, amended: on identities whose fields contain no underscore, a
    climate scenario not being the literal energy, identities with
    distinct (country, datasetKind, variable, scenario) tuples get
    distinct external names, across and within dataset kinds. *)
Theorem layer_name_injective_on_separable i j :
  separable i = true → separable j = true →
  identity_tuple i ≠ identity_tuple j →
  layer_name i ≠ layer_name j.
Proof.
  intros Hi Hj Hne E. apply Hne. f_equal.
  by apply separable_layer_name_inj.
Qed.

Lemma layer_name_injective_on_separable_witness :
  separable (Climate "laos" "temp" "rcp45") = true ∧
  separable (Giri "laos" "temp" "rcp45") = true ∧
  identity_tuple (Climate "laos" "temp" "rcp45")
    ≠ identity_tuple (Giri "laos" "temp" "rcp45") ∧
  layer_name (Climate "laos" "temp" "rcp45")
    ≠ layer_name (Giri "laos" "temp" "rcp45").
Proof.
  split; [reflexivity|]. split; [reflexivity|]. split; [discriminate|].
  apply (layer_name_injective_on_separable
           (Climate "laos" "temp" "rcp45") (Giri "laos" "temp" "rcp45"));
    [reflexivity | reflexivity | discriminate].
Defined.

(** Without the restriction on the climate scenario the energy suffix
    can be imitated as well. *)
Example climate_energy_collision :
  layer_name (Climate "laos" "solar" "energy") = layer_name (Energy "laos" "solar").
Proof. reflexivity. Qed.

(** C10, as stated, fails: a field with a dot goes into the name as it
    is. *)
Lemma layer_name_not_normalized :
  legal_name (layer_name (Climate "laos" "temp" "rcp4.5")) = false.
Proof. reflexivity. Qed.

(** C10, amended: the name is the fields as received, joined by
    underscores, with the literal suffix of the dataset kind; it
    consists of lowercase alphanumerics and underscores exactly when
    every field does. *)
Theorem layer_name_legal_iff_fields_legal i :
  legal_name (layer_name i) = forallb legal_name (fields i).
Proof.
  unfold legal_name. destruct i; simpl;
    rewrite ?all_chars_app; simpl; by rewrite ?andb_true_r, ?andb_assoc.
Qed.

End CodecFacts.

(** ** Facts about the route table *)

Module RoutingFacts.
Import Routing.

(** A request is handed to an endpoint only by a route that matches it
    fully, and then no earlier route does. *)
Lemma route_request_invoke table partial m path e params :
  route_request table partial m path = Invoke e params →
  ∃ i r, table !! i = Some r ∧ endpoint r = e ∧
         matches r m path = FULL params ∧
         ∀ j r', (j < i)%nat → table !! j = Some r' →
                 ∀ params', matches r' m path ≠ FULL params'.
Proof.
  revert partial. induction table as [|r table IH]; intros partial; simpl.
  { by destruct partial. }
  destruct (matches r m path) as [| |ps] eqn:Hr.
  - intros (i & r' & Hi & He & Hm & Hbefore)%IH.
    exists (S i), r'. repeat split; try done.
    intros [|j] r'' Hj Hl params'; simpl in Hl; simplify_eq; [congruence|].
    eapply (Hbefore j); [lia|done].
  - intros (i & r' & Hi & He & Hm & Hbefore)%IH.
    exists (S i), r'. repeat split; try done.
    intros [|j] r'' Hj Hl params'; simpl in Hl; simplify_eq; [congruence|].
    eapply (Hbefore j); [lia|done].
  - intros [= <- <-]. exists 0%nat, r. repeat split; try done. lia.
Qed.

(** Whatever matches a literal last segment also matches a parameter in
    its place. *)
Lemma cleanup_all_shadowed m path params :
  matches (mkRoute POST "/api/cleanup/layers/all" cleanup_all_layers) m path
    = FULL params →
  ∃ params',
    matches (mkRoute POST "/api/cleanup/layers/{country}" cleanup_country_layers)
      m path = FULL params'.
Proof.
  unfold matches. simpl method. simpl template.
  change (compile_path "/api/cleanup/layers/all")
    with [Lit ""; Lit "api"; Lit "cleanup"; Lit "layers"; Lit "all"].
  change (compile_path "/api/cleanup/layers/{country}")
    with [Lit ""; Lit "api"; Lit "cleanup"; Lit "layers"; Param "country"].
  generalize (split_slash path) as segs.
  intros [|s0 [|s1 [|s2 [|s3 [|s4 [|s5 segs]]]]]]; simpl;
    repeat (case_bool_decide; simpl; try done); subst; try discriminate; eauto.
Qed.

Lemma list_all_shadowed m path params :
  matches (mkRoute GET "/api/layers/list" list_all_layers) m path
    = FULL params →
  ∃ params',
    matches (mkRoute GET "/api/layers/{country}" get_country_layers)
      m path = FULL params'.
Proof.
  unfold matches. simpl method. simpl template.
  change (compile_path "/api/layers/list")
    with [Lit ""; Lit "api"; Lit "layers"; Lit "list"].
  change (compile_path "/api/layers/{country}")
    with [Lit ""; Lit "api"; Lit "layers"; Param "country"].
  generalize (split_slash path) as segs.
  intros [|s0 [|s1 [|s2 [|s3 [|s4 segs]]]]]; simpl;
    repeat (case_bool_decide; simpl; try done); subst; try discriminate; eauto.
Qed.

Lemma cleanup_all_unreachable : ¬ reachable cleanup_all_layers.
Proof.
  intros (m & path & params & H). unfold dispatch in H.
  apply route_request_invoke in H as (i & r & Hi & He & Hm & Hbefore).
  assert (i = 10%nat) as ->.
  { do 12 (destruct i as [|i]; [simpl in Hi; by simplify_eq|]). by simpl in Hi. }
  simpl in Hi. simplify_eq.
  apply cleanup_all_shadowed in Hm as [params' Hm].
  by eapply (Hbefore 9%nat); [lia|reflexivity|].
Qed.

Lemma list_all_unreachable : ¬ reachable list_all_layers.
Proof.
  intros (m & path & params & H). unfold dispatch in H.
  apply route_request_invoke in H as (i & r & Hi & He & Hm & Hbefore).
  assert (i = 11%nat) as ->.
  { do 12 (destruct i as [|i]; [simpl in Hi; by simplify_eq|]). by simpl in Hi. }
  simpl in Hi. simplify_eq.
  apply list_all_shadowed in Hm as [params' Hm].
  by eapply (Hbefore 7%nat); [lia|reflexivity|].
Qed.

(** C4: the parameterized routes are registered first, so a POST to
    /api/cleanup/layers/all runs [cleanup_country_layers] with country
    all, a GET to /api/layers/list runs [get_country_layers] with country
    list, and no request at all reaches [cleanup_all_layers] or
    [list_all_layers]. *)
Theorem literal_routes_shadowed :
  dispatch POST "/api/cleanup/layers/all"
    = Invoke cleanup_country_layers [("country", "all")] ∧
  dispatch GET "/api/layers/list"
    = Invoke get_country_layers [("country", "list")] ∧
  ¬ reachable cleanup_all_layers ∧
  ¬ reachable list_all_layers.
Proof.
  split; [reflexivity|]. split; [reflexivity|].
  split; [apply cleanup_all_unreachable | apply list_all_unreachable].
Qed.

End RoutingFacts.

(** ** Facts about the duplicate resolver and the cleanup *)

Module GeoServerFacts.
Import Codec GeoServer.

Global Instance newer_first_total : Total newer_first.
Proof.
  intros a b. unfold newer_first.
  destruct (Z.lt_trichotomy (createdAt a) (createdAt b)) as [?|[?|?]]; auto.
  destruct (total String.le (externalName a) (externalName b)); auto.
Qed.

Global Instance newer_first_trans : Transitive newer_first.
Proof.
  intros a b c [?|[? ?]] [?|[? ?]]; unfold newer_first.
  - left; lia.
  - left; lia.
  - left; lia.
  - right. split; [lia|]. by etrans.
Qed.

Lemma newer_first_newer a b :
  newer_first a b → createdAt a ≠ createdAt b → (createdAt b < createdAt a)%Z.
Proof. intros [?|[? ?]] ?; [done|lia]. Qed.

Lemma NoDup_fmap_eq {A B} (f : A → B) (l : list A) x y :
  NoDup (f <$> l) → x ∈ l → y ∈ l → f x = f y → x = y.
Proof.
  induction l as [|a l IH]; simpl; [by intros _ ?%elem_of_nil|].
  intros [Ha Hl]%NoDup_cons [->|Hx]%elem_of_cons [->|Hy]%elem_of_cons E; try done.
  - exfalso. apply Ha. rewrite E. by apply list_elem_of_fmap_2.
  - exfalso. apply Ha. rewrite <- E. by apply list_elem_of_fmap_2.
  - by apply IH.
Qed.

Lemma sorted_newer_first regs : StronglySorted newer_first (merge_sort newer_first regs).
Proof. apply StronglySorted_merge_sort; apply _. Qed.

(** Sorting does not depend on the order of the listing when the
    createdAt values are distinct. *)
Lemma merge_sort_order_irrelevant regs regs' :
  NoDup (createdAt <$> regs) → regs' ≡ₚ regs →
  merge_sort newer_first regs' = merge_sort newer_first regs.
Proof.
  intros Hnd Hperm.
  apply (StronglySorted_unique_strong newer_first); try apply sorted_newer_first.
  - intros x1 x2 H1 H2 R12 R21.
    rewrite merge_sort_Permutation in H1, H2. rewrite Hperm in H1.
    apply (NoDup_fmap_eq createdAt regs); try done.
    destruct R12 as [?|[? ?]], R21 as [?|[? ?]]; lia.
  - by rewrite !merge_sort_Permutation.
Qed.

Lemma filter_all {A} (p : A → bool) (l : list A) :
  Forall (λ x, p x = true) l → List.filter p l = l.
Proof.
  induction 1 as [|x l Hx _ IH]; simpl; [done|]. by rewrite Hx, IH.
Qed.

Lemma delete_stale_items faults now candidates g :
  (delete_stale faults now candidates g).1
  = (λ r, (externalName r, delete_error faults now (externalName r))) <$> candidates.
Proof.
  revert g. induction candidates as [|r rest IH]; intros g; simpl; [done|].
  unfold deleteLayer, delete_error.
  destruct (faults now (DeleteLayer (externalName r))) as [e|].
  - destruct (kind e);
      match goal with
      | |- context [delete_stale faults now rest ?g0] =>
          specialize (IH g0); destruct (delete_stale faults now rest g0)
      end; simpl in *; by rewrite IH.
  - match goal with
    | |- context [delete_stale faults now rest ?g0] =>
        specialize (IH g0); destruct (delete_stale faults now rest g0)
    end; simpl in *; by rewrite IH.
Qed.

(** *** Cleanup over several countries *)

Lemma resolve_group_subset group r :
  r ∈ kept (resolve_group group) ++ stale (resolve_group group) → r ∈ group.
Proof.
  unfold resolve_group.
  pose proof (merge_sort_Permutation newer_first group) as Hperm.
  destruct (merge_sort newer_first group) as [|first others]; simpl.
  - by intros ?%elem_of_nil.
  - intros Hr. by rewrite <- Hperm.
Qed.

Lemma stale_subset regs r : r ∈ stale (resolve regs) → r ∈ regs.
Proof.
  unfold resolve, group_by_identity. simpl.
  intros (st & Hst & Hr)%list_elem_of_In%in_concat.
  apply list_elem_of_In in Hst, Hr.
  apply list_elem_of_fmap in Hst as (res & -> & Hres).
  apply list_elem_of_fmap in Hres as (group & -> & Hgroup).
  apply list_elem_of_fmap in Hgroup as (i & -> & _).
  assert (r ∈ List.filter (λ r0, bool_decide (identity r0 = i)) regs) as Hin.
  { apply resolve_group_subset, elem_of_app. by right. }
  apply list_elem_of_In, filter_In in Hin as [Hin _]. by apply list_elem_of_In.
Qed.

(** *** One identity inside a mixed listing *)

Lemma filter_none {A} (p : A → bool) (l : list A) :
  Forall (λ x, p x = false) l → List.filter p l = [].
Proof.
  induction 1 as [|x l Hx _ IH]; simpl; [done|]. by rewrite Hx, IH.
Qed.

Lemma filter_Permutation_bool {A} (p : A → bool) (l l' : list A) :
  l ≡ₚ l' → List.filter p l ≡ₚ List.filter p l'.
Proof.
  induction 1 as [|x l l' _ IH|x y l|l l' l'' _ IH1 _ IH2]; simpl.
  - done.
  - destruct (p x); by rewrite IH.
  - destruct (p x), (p y); try done. apply perm_swap.
  - by etrans.
Qed.

(** Of lists made per identity and put one after the other, the
    registrations of an identity are those of its own list. *)
Lemma filter_concat_by_identity
    (F : LayerIdentity → list LayerRegistration) ids who :
  NoDup ids →
  (∀ i r, r ∈ F i → identity r = i) →
  List.filter (λ r, bool_decide (identity r = who)) (concat (F <$> ids))
  = if decide (who ∈ ids) then F who else [].
Proof.
  intros Hnd HF. induction Hnd as [|i ids Hi Hnd IH].
  - simpl. destruct (decide (who ∈ [])) as [H|H]; [by apply elem_of_nil in H|done].
  - rewrite fmap_cons.
    change (concat (F i :: (F <$> ids))) with (F i ++ concat (F <$> ids)).
    rewrite List.filter_app, IH. destruct (decide (i = who)) as [->|Hne].
    + rewrite filter_all.
      2:{ apply Forall_forall. intros r Hr. apply bool_decide_eq_true_2.
          by apply HF. }
      destruct (decide (who ∈ ids)) as [?|_]; [done|].
      destruct (decide (who ∈ who :: ids)) as [_|H]; [apply app_nil_r|].
      exfalso. apply H. by left.
    + rewrite filter_none.
      2:{ apply Forall_forall. intros r Hr. apply bool_decide_eq_false_2.
          intros E. apply Hne. rewrite <- E. symmetry. by apply HF. }
      simpl.
      destruct (decide (who ∈ ids)) as [H1|H1],
               (decide (who ∈ i :: ids)) as [H2|H2]; try done.
      * exfalso. apply H2. by right.
      * apply elem_of_cons in H2 as [->|H2]; done.
Qed.

Lemma resolved_identity regs i r :
  r ∈ kept (resolve_group (List.filter (λ r0, bool_decide (identity r0 = i)) regs))
      ++ stale (resolve_group
                  (List.filter (λ r0, bool_decide (identity r0 = i)) regs)) →
  identity r = i.
Proof.
  intros Hr%resolve_group_subset.
  apply list_elem_of_In, filter_In in Hr as [_ Hr].
  by apply bool_decide_eq_true_1 in Hr.
Qed.

Lemma kept_by_identity regs :
  kept (resolve regs)
  = concat ((λ i, kept (resolve_group
                          (List.filter (λ r, bool_decide (identity r = i)) regs)))
              <$> identities regs).
Proof.
  unfold resolve, group_by_identity. simpl. by rewrite <- !list_fmap_compose.
Qed.

Lemma stale_by_identity regs :
  stale (resolve regs)
  = concat ((λ i, stale (resolve_group
                           (List.filter (λ r, bool_decide (identity r = i)) regs)))
              <$> identities regs).
Proof.
  unfold resolve, group_by_identity. simpl. by rewrite <- !list_fmap_compose.
Qed.

Lemma group_identity_listed regs who r :
  r ∈ List.filter (λ r0, bool_decide (identity r0 = who)) regs →
  who ∈ identities regs.
Proof.
  intros [Hr Hi]%list_elem_of_In%filter_In.
  apply bool_decide_eq_true_1 in Hi. subst who.
  unfold identities. apply elem_of_remove_dups.
  apply list_elem_of_fmap_2. by apply list_elem_of_In.
Qed.

(** What the resolver does with the registrations of one identity
    inside a listing of many: it resolves that identity's group. *)
Lemma resolve_identity_part regs who :
  let group := List.filter (λ r, bool_decide (identity r = who)) regs in
  group ≠ [] →
  List.filter (λ r, bool_decide (identity r = who)) (kept (resolve regs))
    = kept (resolve_group group) ∧
  List.filter (λ r, bool_decide (identity r = who)) (stale (resolve regs))
    = stale (resolve_group group).
Proof.
  intros group Hne.
  assert (who ∈ identities regs) as Hwho.
  { destruct group as [|r g] eqn:Hg; [done|].
    apply (group_identity_listed regs who r). fold group. rewrite Hg. by left. }
  rewrite kept_by_identity, stale_by_identity.
  rewrite !filter_concat_by_identity; try apply NoDup_remove_dups.
  - by rewrite !decide_True by done.
  - intros i r Hr. apply (resolved_identity regs). apply elem_of_app. by right.
  - intros i r Hr. apply (resolved_identity regs). apply elem_of_app. by left.
Qed.

Lemma length_concat_singletons {A B} (F : A → list B) (l : list A) :
  (∀ i, i ∈ l → length (F i) = 1%nat) →
  length (concat (F <$> l)) = length l.
Proof.
  induction l as [|i l IH]; simpl; [done|]. intros H.
  rewrite length_app, H by (by left). f_equal. apply IH.
  intros j Hj. apply H. by right.
Qed.

(** One registration is kept for every identity of the listing. *)
Lemma kept_one_per_identity regs :
  length (kept (resolve regs)) = length (identities regs).
Proof.
  rewrite kept_by_identity. apply length_concat_singletons.
  intros i (r & -> & Hr)%elem_of_remove_dups%list_elem_of_fmap.
  unfold resolve_group.
  pose proof (merge_sort_Permutation newer_first
                (List.filter (λ r0, bool_decide (identity r0 = identity r)) regs))
    as Hperm.
  destruct (merge_sort newer_first _) as [|first others]; [|done].
  apply Permutation_nil in Hperm.
  assert (r ∈ List.filter (λ r0, bool_decide (identity r0 = identity r)) regs)
    as Hin.
  { apply list_elem_of_In, filter_In. split; [by apply list_elem_of_In|].
    by apply bool_decide_eq_true_2. }
  rewrite Hperm in Hin. by apply elem_of_nil in Hin.
Qed.

(** C7: in the listing the cleanup of a country works on, of the N > 1
    registrations of one logical layer with distinct createdAt values
    exactly one is kept, the most recent, and the N-1 others are marked
    stale, whatever other layers the listing holds and whatever its
    order; the cleanup keeps one registration per logical layer and
    attempts to delete exactly the stale ones. *)
Theorem newest_kept_others_stale (regs : list LayerRegistration) who :
  let of_who := λ r, bool_decide (identity r = who) in
  let group := List.filter of_who regs in
  (1 < length group)%nat →
  NoDup (createdAt <$> group) →
  ∃ newest others,
    List.filter of_who (kept (resolve regs)) = [newest] ∧
    List.filter of_who (stale (resolve regs)) = others ∧
    newest ∈ group ∧
    (∀ r, r ∈ group → r ≠ newest → (createdAt r < createdAt newest)%Z) ∧
    length others = (length group - 1)%nat ∧
    newest :: others ≡ₚ group ∧
    (∀ r, r ∈ group → r ∈ stale (resolve regs) ↔ r ≠ newest) ∧
    (∀ regs', regs' ≡ₚ regs →
              List.filter of_who (kept (resolve regs')) = [newest] ∧
              List.filter of_who (stale (resolve regs')) = others) ∧
    (∀ faults now c g,
        faults now (ListLayers (Some c)) = None →
        List.filter (in_country c) (layers g) = regs →
        let report := (cleanup_duplicate_layers faults now c g).1 in
        kept_count report = length (identities regs) ∧
        (items report).*1 = externalName <$> stale (resolve regs)).
Proof.
  intros ow group. subst ow. intros Hlen Hnd.
  assert (∀ l, l ≡ₚ regs → List.filter (λ r, bool_decide (identity r = who)) l ≡ₚ group) as Hgroup.
  { intros l Hl. by apply filter_Permutation_bool. }
  assert (∀ l, l ≡ₚ regs → List.filter (λ r, bool_decide (identity r = who)) l ≠ []) as Hne.
  { intros l Hl E. apply Hgroup in Hl. rewrite E in Hl.
    apply Permutation_length in Hl. simpl in Hl. lia. }
  assert (Hres : ∀ l, l ≡ₚ regs →
            List.filter (λ r, bool_decide (identity r = who)) (kept (resolve l)) = kept (resolve_group group) ∧
            List.filter (λ r, bool_decide (identity r = who)) (stale (resolve l)) = stale (resolve_group group)).
  { intros l Hl.
    destruct (resolve_identity_part l who (Hne l Hl)) as [-> ->].
    unfold resolve_group.
    by rewrite (merge_sort_order_irrelevant group (List.filter (λ r, bool_decide (identity r = who)) l))
      by (done || by apply Hgroup). }
  pose proof (merge_sort_Permutation newer_first group) as Hperm.
  pose proof (sorted_newer_first group) as Hsorted.
  unfold resolve_group in Hres.
  destruct (merge_sort newer_first group) as [|newest others] eqn:Hs.
  { apply Permutation_length in Hperm. simpl in Hperm. lia. }
  simpl in Hres.
  apply StronglySorted_cons in Hsorted as [Hhead _].
  exists newest, others.
  assert (newest ∈ group) as Hin by (rewrite <- Hperm; by left).
  assert (NoDup (newest :: others)) as Hnd'.
  { rewrite Hperm. by apply (NoDup_fmap_1 createdAt). }
  destruct (Hres regs) as [Hk Hst]; [done|].
  split; [done|]. split; [done|]. split; [done|].
  split; [|split; [|split; [done|split; [|split]]]].
  - intros r Hr Hneq. rewrite <- Hperm in Hr.
    apply elem_of_cons in Hr as [->|Hr]; [done|].
    rewrite Forall_forall in Hhead.
    apply newer_first_newer; [by apply Hhead|].
    intros E. apply Hneq. symmetry.
    apply (NoDup_fmap_eq createdAt group); try done.
    rewrite <- Hperm. by right.
  - apply Permutation_length in Hperm. simpl in Hperm. lia.
  - intros r Hr.
    assert (bool_decide (identity r = who) = true) as Hwho.
    { by apply list_elem_of_In, filter_In in Hr as [_ ?]. }
    assert (r ∈ stale (resolve regs) ↔ r ∈ others) as ->.
    { rewrite <- Hst, !list_elem_of_In, filter_In.
      split; [by intros ?|by intros [? _]]. }
    apply NoDup_cons in Hnd' as [Hnew _].
    rewrite <- Hperm in Hr. apply elem_of_cons in Hr as [->|Hr]; [done|].
    split; [|done]. by intros _ ->.
  - intros regs' Hl. by apply Hres.
  - intros faults now c g Hlist Hregs.
    unfold cleanup_duplicate_layers, listLayers. rewrite Hlist, Hregs.
    unfold cleanup_registrations.
    pose proof (delete_stale_items faults now (stale (resolve regs)) g) as Hitems.
    destruct (delete_stale faults now (stale (resolve regs)) g) as [its g'].
    simpl in *. split; [apply kept_one_per_identity|].
    rewrite Hitems, <- list_fmap_compose. done.
Qed.

Lemma newest_kept_others_stale_witness :
  (1 < length (List.filter
                 (λ r, bool_decide (identity r = Climate "laos" "temp" "rcp45"))
                 Demo.three_countries))%nat ∧
  ∃ newest others,
    List.filter (λ r, bool_decide (identity r = Climate "laos" "temp" "rcp45"))
      (kept (resolve Demo.three_countries)) = [newest] ∧
    List.filter (λ r, bool_decide (identity r = Climate "laos" "temp" "rcp45"))
      (stale (resolve Demo.three_countries)) = others ∧
    newest = Demo.t2 ∧ others = [Demo.t1].
Proof.
  split; [simpl; lia|].
  destruct (newest_kept_others_stale Demo.three_countries
              (Climate "laos" "temp" "rcp45"))
    as (newest & others & Hk & Hst & _).
  - simpl; lia.
  - simpl. apply NoDup_cons.
    split; [by intros ?%list_elem_of_singleton | apply NoDup_singleton].
  - exists newest, others. split; [exact Hk|]. split; [exact Hst|].
    split.
    + assert (List.filter
                (λ r, bool_decide (identity r = Climate "laos" "temp" "rcp45"))
                (kept (resolve Demo.three_countries)) = [Demo.t2]) as Hc
        by (vm_compute; reflexivity).
      rewrite Hc in Hk. by injection Hk.
    + rewrite <- Hst. vm_compute. reflexivity.
Defined.

(** The report of a country does not depend on what the service holds
    when its turn comes: it is fixed by the listing and the faults. *)
Lemma cleanup_report_independent faults now c regs g g' :
  (cleanup_registrations faults now c regs g).1
  = (cleanup_registrations faults now c regs g').1.
Proof.
  unfold cleanup_registrations.
  pose proof (delete_stale_items faults now (stale (resolve regs)) g) as H.
  pose proof (delete_stale_items faults now (stale (resolve regs)) g') as H'.
  destruct (delete_stale faults now (stale (resolve regs)) g).
  destruct (delete_stale faults now (stale (resolve regs)) g').
  simpl in *. by rewrite H, H'.
Qed.

Lemma cleanup_report_shape faults now c regs g :
  let report := (cleanup_registrations faults now c regs g).1 in
  success report = true ∧ country report = c ∧
  items report
    = (λ r, (externalName r, delete_error faults now (externalName r)))
        <$> stale (resolve regs) ∧
  failures report = failures_of (items report).
Proof.
  unfold cleanup_registrations.
  pose proof (delete_stale_items faults now (stale (resolve regs)) g) as H.
  destruct (delete_stale faults now (stale (resolve regs)) g).
  simpl in *. by rewrite H.
Qed.

Lemma cleanup_countries_reports faults now cs regs g :
  (cleanup_countries faults now cs regs g).1
  = (λ c, (cleanup_registrations faults now c
             (List.filter (in_country c) regs) g).1) <$> cs.
Proof.
  revert g. induction cs as [|c cs IH]; intros g; simpl; [done|].
  destruct (cleanup_registrations faults now c (List.filter (in_country c) regs) g)
    as [report g1] eqn:Hc.
  specialize (IH g1).
  destruct (cleanup_countries faults now cs regs g1) as [reports g'].
  simpl in *. rewrite IH. f_equal.
  apply list_fmap_ext. intros _ c' _. apply cleanup_report_independent.
Qed.

Lemma stale_country_listed regs b r :
  r ∈ stale (resolve (List.filter (in_country b) regs)) → b ∈ countries regs.
Proof.
  intros Hr%stale_subset.
  apply list_elem_of_In, filter_In in Hr as [Hr Hb].
  unfold countries. apply elem_of_remove_dups.
  apply bool_decide_eq_true_1 in Hb. rewrite <- Hb.
  apply (list_elem_of_fmap_2 (λ r0, country_of (identity r0))).
  by apply list_elem_of_In.
Qed.

Lemma failure_recorded faults now (candidates : list LayerRegistration) r e :
  r ∈ candidates → delete_error faults now (externalName r) = Some e →
  (externalName r, e)
    ∈ failures_of ((λ r0, (externalName r0,
                           delete_error faults now (externalName r0)))
                     <$> candidates).
Proof.
  intros Hr He. unfold failures_of. apply list_elem_of_omap.
  exists (externalName r, Some e). split; [|done].
  rewrite <- He.
  by apply (list_elem_of_fmap_2
              (λ r0, (externalName r0, delete_error faults now (externalName r0)))).
Qed.

(** *** Registering replaces *)

Lemma filter_not_named_idem name (l : list LayerRegistration) :
  List.filter (λ r, negb (named name r)) (List.filter (λ r, negb (named name r)) l)
  = List.filter (λ r, negb (named name r)) l.
Proof.
  induction l as [|r l IH]; simpl; [done|].
  destruct (negb (named name r)) eqn:Hr; simpl; [|done]. by rewrite Hr, IH.
Qed.

Lemma filter_named_not_named name (l : list LayerRegistration) :
  List.filter (named name) (List.filter (λ r, negb (named name r)) l) = [].
Proof.
  induction l as [|r l IH]; simpl; [done|].
  destruct (named name r) eqn:Hr; simpl; [done|]. by rewrite Hr.
Qed.

Lemma register_again now1 now2 who name path1 path2 g :
  layers (register now2 who name path2 (register now1 who name path1 g))
  = mkRegistration name who now2 path2
      :: List.filter (λ r, negb (named name r)) (layers g).
Proof.
  unfold register. simpl. unfold named at 1. simpl.
  rewrite bool_decide_eq_true_2 by done. simpl.
  by rewrite filter_not_named_idem.
Qed.

Lemma register_once_by_name now who name path g :
  length (List.filter (named name) (layers (register now who name path g))) = 1%nat.
Proof.
  unfold register. simpl. unfold named at 1. simpl.
  rewrite bool_decide_eq_true_2 by done. simpl.
  by rewrite filter_named_not_named.
Qed.

(** Names registered through [register] stay pairwise distinct. *)
Lemma register_names_distinct now who name path g :
  NoDup (externalName <$> layers g) →
  NoDup (externalName <$> layers (register now who name path g)).
Proof.
  intros Hnd. unfold register. simpl. apply NoDup_cons. split.
  - intros (r & Hname & Hr)%list_elem_of_fmap.
    apply list_elem_of_In, filter_In in Hr as [_ Hr].
    unfold named in Hr. by rewrite bool_decide_eq_true_2 in Hr.
  - induction (layers g) as [|r l IH]; simpl in *; [done|].
    apply NoDup_cons in Hnd as [Hr Hl].
    destruct (negb (named name r)); simpl; [|by apply IH].
    apply NoDup_cons. split; [|by apply IH].
    intros (r' & Hname & Hr')%list_elem_of_fmap. apply Hr.
    apply list_elem_of_In, filter_In in Hr' as [Hr' _].
    rewrite Hname. apply list_elem_of_fmap_2. by apply list_elem_of_In.
Qed.

Lemma delete_stale_subset faults now candidates g r :
  r ∈ layers (delete_stale faults now candidates g).2 → r ∈ layers g.
Proof.
  revert g. induction candidates as [|c rest IH]; intros g; simpl; [done|].
  unfold deleteLayer.
  destruct (faults now (DeleteLayer (externalName c))) as [e|];
    [destruct (kind e)|];
    match goal with
    | |- context [delete_stale faults now rest ?g0] =>
        specialize (IH g0); destruct (delete_stale faults now rest g0)
    end; simpl in *; try done.
  all: intros Hr%IH; simpl in Hr;
    apply list_elem_of_In, filter_In in Hr as [Hr _]; by apply list_elem_of_In.
Qed.

(** *** The service after the deletions *)

Lemma deleteLayer_layers faults now name g x :
  x ∈ layers (match deleteLayer faults now name g with
              | inl _ => g
              | inr g1 => g1
              end)
  ↔ x ∈ layers g ∧
    (externalName x = name → faults now (DeleteLayer name) ≠ None).
Proof.
  unfold deleteLayer.
  destruct (faults now (DeleteLayer name)) as [e|]; [destruct (kind e)|]; simpl;
    try (split; [by intros ?|by intros [? _]]).
  rewrite list_elem_of_In, filter_In, <- list_elem_of_In. unfold named.
  split; intros [Hx Hn]; (split; [done|]).
  - intros E. by rewrite bool_decide_eq_true_2 in Hn.
  - apply negb_true_iff, bool_decide_eq_false_2. intros E. by apply Hn.
Qed.

Lemma delete_stale_cons faults now c rest g :
  (delete_stale faults now (c :: rest) g).2
  = (delete_stale faults now rest
       (match deleteLayer faults now (externalName c) g with
        | inl _ => g
        | inr g1 => g1
        end)).2.
Proof.
  simpl. destruct (deleteLayer faults now (externalName c) g) as [e|g1].
  - by destruct (delete_stale faults now rest g).
  - by destruct (delete_stale faults now rest g1).
Qed.

(** After the deletion loop the service holds what it held before,
    less every registration that goes by the name of a candidate whose
    deletion went through. *)
Lemma delete_stale_layers faults now candidates g x :
  x ∈ layers (delete_stale faults now candidates g).2
  ↔ x ∈ layers g ∧
    ∀ r, r ∈ candidates → externalName r = externalName x →
         faults now (DeleteLayer (externalName r)) ≠ None.
Proof.
  revert g. induction candidates as [|c rest IH]; intros g.
  - simpl. split; [|by intros [? _]].
    intros Hx. split; [done|]. by intros r ?%elem_of_nil.
  - rewrite delete_stale_cons, IH, deleteLayer_layers. split.
    + intros [[Hx Hc] Hrest]. split; [done|].
      intros r [->|Hr]%elem_of_cons E; [|by apply Hrest].
      by apply Hc.
    + intros [Hx Hall]. split; [split; [done|]|].
      * intros E. apply (Hall c); [by left|done].
      * intros r Hr. apply Hall. by right.
Qed.

Lemma cleanup_registrations_layers faults now c regs g x :
  x ∈ layers (cleanup_registrations faults now c regs g).2
  ↔ x ∈ layers g ∧
    ∀ r, r ∈ stale (resolve regs) → externalName r = externalName x →
         faults now (DeleteLayer (externalName r)) ≠ None.
Proof.
  rewrite <- delete_stale_layers. unfold cleanup_registrations.
  by destruct (delete_stale faults now (stale (resolve regs)) g).
Qed.

(** After a cleanup country by country the service holds what it held
    before, less every registration that goes by the name of a stale
    layer, of whichever country, whose deletion went through. *)
Lemma cleanup_countries_layers faults now cs regs g x :
  x ∈ layers (cleanup_countries faults now cs regs g).2
  ↔ x ∈ layers g ∧
    ∀ c r, c ∈ cs → r ∈ stale (resolve (List.filter (in_country c) regs)) →
           externalName r = externalName x →
           faults now (DeleteLayer (externalName r)) ≠ None.
Proof.
  revert g. induction cs as [|c cs IH]; intros g.
  - simpl. split; [|by intros [? _]].
    intros Hx. split; [done|]. by intros c r ?%elem_of_nil.
  - assert ((cleanup_countries faults now (c :: cs) regs g).2
            = (cleanup_countries faults now cs regs
                 (cleanup_registrations faults now c
                    (List.filter (in_country c) regs) g).2).2) as ->.
    { simpl.
      destruct (cleanup_registrations faults now c
                  (List.filter (in_country c) regs) g) as [report g1].
      simpl. by destruct (cleanup_countries faults now cs regs g1). }
    rewrite IH, cleanup_registrations_layers. split.
    + intros [[Hx Hc] Hrest]. split; [done|].
      intros c' r [->|Hc']%elem_of_cons; [by apply Hc|by apply Hrest].
    + intros [Hx Hall]. split; [split; [done|]|].
      * intros r. apply Hall. by left.
      * intros c' r Hc'. apply Hall. by right.
Qed.

(** The registrations of an identity after registering it: the new one,
    and those that were there under other names. *)
Lemma register_identity_count now who name path g :
  length (List.filter (λ r, bool_decide (identity r = who))
            (layers (register now who name path g)))
  = S (length (List.filter
                 (λ r, bool_decide (identity r = who) && negb (named name r))
                 (layers g))).
Proof.
  unfold register. simpl. rewrite bool_decide_eq_true_2 by done. simpl. f_equal.
  induction (layers g) as [|r l IH]; simpl; [done|].
  destruct (named name r); simpl.
  - by rewrite andb_false_r.
  - rewrite andb_true_r. destruct (bool_decide (identity r = who)); simpl; by rewrite IH.
Qed.

End GeoServerFacts.

(** ** Facts about the handlers *)

Module AppFacts.
Import Codec Payload GeoServer App GeoServerFacts.

(** Unfolds a handler body down to the collaborators' answers. *)
Ltac run :=
  cbv [upload respond upload_climate_data upload_giri_data
       upload_energy_data upload_boundary_data get_country_layers
       cleanup_country_layers cleanup_all_layers list_all_layers
       try_except file_processor db_merge_commit publish_raster
       publish_vector cache_layer_info cache_country_layers
       db_query_climate db_query_giri db_query_energy db_query_boundary
       App.cleanup_duplicate_layers App.cleanup_all_duplicate_layers
       App.get_all_layers
       publishRaster publishVector
       mbind M_bind mret M_ret act trace eval raise
       processing_succeeds publish_call service_call request_identity
       response_layer_name with_faults with_db with_geoserver with_cache
       with_calls with_now App.with_readiness];
  simpl.

(** Case analysis on what the collaborators answer. *)
Ltac answers :=
  repeat match goal with
         | |- context [match ?x with _ => _ end] =>
             let T := type of x in
             lazymatch T with
             | Exc _ => destruct x eqn:?
             | option PublishError => destruct x eqn:?
             end; simpl
         end.



(** C3: a cleanup over all countries in which deleting a stale layer of
    one country fails still returns normally, with one report per
    country: every country's stale layers were attempted, the report of
    the failing country lists the failure, and afterwards the service
    holds what it held before less the stale layers, of every country,
    whose deletion went through. *)
Theorem cleanup_all_reports_each_country E w b r e :
  let regs := layers (geoserver w) in
  faults E (now w) (ListLayers None) = None →
  r ∈ stale (resolve (List.filter (in_country b) regs)) →
  delete_error (faults E) (now w) (externalName r) = Some e →
  (∃ body,
    (cleanup_all_layers E w).2 = Ok body ∧
    ca_success body = true ∧
    ca_countries_processed body = length (countries regs) ∧
    GeoServer.country <$> ca_details body = countries regs ∧
    Forall (λ report,
              success report = true ∧
              (items report).*1
                = externalName
                    <$> stale (resolve (List.filter
                                          (in_country (GeoServer.country report)) regs)))
           (ca_details body) ∧
    ∃ report,
      report ∈ ca_details body ∧ GeoServer.country report = b ∧
      (externalName r, e) ∈ failures report) ∧
  ∀ x, x ∈ layers (geoserver (cleanup_all_layers E w).1)
       ↔ x ∈ regs ∧
         ∀ c r', c ∈ countries regs →
                 r' ∈ stale (resolve (List.filter (in_country c) regs)) →
                 externalName r' = externalName x →
                 faults E (now w) (DeleteLayer (externalName r')) ≠ None.
Proof.
  intros regs Hlist Hr He. run.
  unfold GeoServer.cleanup_all_duplicate_layers, listLayers.
  rewrite Hlist. fold regs.
  pose proof (cleanup_countries_reports (faults E) (now w) (countries regs)
                regs (geoserver w)) as Hreports.
  pose proof (λ x, cleanup_countries_layers (faults E) (now w) (countries regs)
                     regs (geoserver w) x) as Hlayers.
  destruct (cleanup_countries (faults E) (now w) (countries regs) regs (geoserver w))
    as [reports g']. simpl in *. subst reports.
  split; [|exact Hlayers].
  eexists. split; [done|]. simpl. split; [done|].
  split; [by rewrite length_fmap|]. split; [|split].
  - rewrite <- list_fmap_compose. rewrite <- (list_fmap_id (countries regs)) at 2.
    apply list_fmap_ext. intros _ c _. simpl.
    apply cleanup_report_shape.
  - apply Forall_fmap, Forall_forall. intros c _. simpl.
    destruct (cleanup_report_shape (faults E) (now w) c
                (List.filter (in_country c) regs) (geoserver w))
      as (Hs & Hc & Hi & _).
    split; [done|]. rewrite Hc, Hi, <- list_fmap_compose. done.
  - eexists. split; [|split].
    + apply (list_elem_of_fmap_2 _ _ b). by eapply stale_country_listed.
    + apply cleanup_report_shape.
    + destruct (cleanup_report_shape (faults E) (now w) b
                  (List.filter (in_country b) regs) (geoserver w))
        as (_ & _ & Hi & Hf).
      rewrite Hf, Hi. by apply failure_recorded.
Qed.

(** *** Uploads *)

(** A successful upload registered its layer under the name computed
    from the form, and answers with that name. *)
Lemma upload_ok_registers E req w :
  is_ok (upload E req w).2 = true →
  ∃ path body,
    (upload E req w).2 = Ok body ∧
    response_layer_name body = layer_name (request_identity req) ∧
    geoserver (upload E req w).1
      = register (now w) (request_identity req)
          (layer_name (request_identity req)) path (geoserver w).
Proof.
  destruct req; run; answers; try done; intros _; by eexists _, _.
Qed.

(** What no upload changes: the clock, the readiness flag and the
    cached country listings. *)
Lemma upload_frame E req w :
  now (upload E req w).1 = now w ∧
  readiness (geoserver (upload E req w).1) = readiness (geoserver w) ∧
  SpatialCache.country_entries (spatial_cache (upload E req w).1)
    = SpatialCache.country_entries (spatial_cache w).
Proof. destruct req; run; answers; done. Qed.









(** C6, as stated, fails: the service holds two registrations of a
    layer under older names; the layer is published twice, both calls
    succeed, and the identity then has three registrations. *)
Lemma duplicates_outlive_publish :
  let E := Demo.env Demo.no_faults in
  let req := UploadClimate Demo.laos_temp_rcp45 in
  let first := upload E req Demo.duplicates_world in
  let second := upload E req (with_now 20240302 first.1) in
  is_ok first.2 = true ∧ is_ok second.2 = true ∧
  length (List.filter
            (λ r, bool_decide (identity r = Climate "laos" "temp" "rcp45"))
            (layers (geoserver second.1))) = 3%nat.
Proof. vm_compute. done. Qed.

(** C6, amended: publishing the same identity and artifact twice
    replaces by external name.  Both calls compute the same external
    name; afterwards the service holds one registration under that
    name, the second call has added no name to those registered after
    the first, and the identity has that one registration besides those
    it already had under other names. *)
Theorem publish_twice_registers_once E req w later :
  let first := upload E req w in
  let second := upload E req (with_now later first.1) in
  let who := request_identity req in
  is_ok first.2 = true →
  is_ok second.2 = true →
  (∃ body1 body2,
      first.2 = Ok body1 ∧ second.2 = Ok body2 ∧
      response_layer_name body1 = layer_name who ∧
      response_layer_name body2 = layer_name who) ∧
  length (List.filter (named (layer_name who))
            (layers (geoserver second.1))) = 1%nat ∧
  externalName <$> layers (geoserver second.1)
    = externalName <$> layers (geoserver first.1) ∧
  length (List.filter (λ r, bool_decide (identity r = who))
            (layers (geoserver second.1)))
    = S (length (List.filter
                   (λ r, bool_decide (identity r = who)
                         && negb (named (layer_name who) r))
                   (layers (geoserver w)))).
Proof.
  intros first second who Hok1 Hok2.
  destruct (upload_ok_registers E req w Hok1) as (p1 & b1 & Hb1 & Hn1 & Hg1).
  destruct (upload_ok_registers E req _ Hok2) as (p2 & b2 & Hb2 & Hn2 & Hg2).
  fold first in Hb1, Hg1. fold second in Hb2, Hg2. fold who in Hn1, Hn2, Hg1, Hg2.
  change (geoserver (with_now later first.1)) with (geoserver first.1) in Hg2.
  change (now (with_now later first.1)) with later in Hg2.
  assert (layers (geoserver second.1)
          = layers (register later who (layer_name who) p2 (geoserver w))) as Hl.
  { rewrite Hg2, Hg1. apply register_again. }
  split; [by exists b1, b2|]. rewrite Hl. split; [|split].
  - apply register_once_by_name.
  - by rewrite Hg1.
  - apply register_identity_count.
Qed.

Lemma publish_twice_registers_once_witness :
  is_ok (upload (Demo.env Demo.no_faults) (UploadClimate Demo.laos_temp_rcp45)
           (started 0)).2 = true ∧
  is_ok (upload (Demo.env Demo.no_faults) (UploadClimate Demo.laos_temp_rcp45)
           (with_now 60
              (upload (Demo.env Demo.no_faults)
                 (UploadClimate Demo.laos_temp_rcp45) (started 0)).1)).2 = true ∧
  length (List.filter (named "laos_temp_rcp45")
            (layers (geoserver
               (upload (Demo.env Demo.no_faults)
                  (UploadClimate Demo.laos_temp_rcp45)
                  (with_now 60
                     (upload (Demo.env Demo.no_faults)
                        (UploadClimate Demo.laos_temp_rcp45) (started 0)).1)).1)))
    = 1%nat.
Proof.
  assert (is_ok (upload (Demo.env Demo.no_faults)
                   (UploadClimate Demo.laos_temp_rcp45) (started 0)).2 = true)
    as Hok1 by (vm_compute; reflexivity).
  assert (is_ok (upload (Demo.env Demo.no_faults)
                   (UploadClimate Demo.laos_temp_rcp45)
                   (with_now 60
                      (upload (Demo.env Demo.no_faults)
                         (UploadClimate Demo.laos_temp_rcp45) (started 0)).1)).2
          = true) as Hok2 by (vm_compute; reflexivity).
  split; [exact Hok1|]. split; [exact Hok2|].
  exact (proj1 (proj2 (publish_twice_registers_once (Demo.env Demo.no_faults)
                         (UploadClimate Demo.laos_temp_rcp45) (started 0) 60
                         Hok1 Hok2))).
Defined.

(** A cleanup of one country whose listing succeeds answers with the
    report of the resolver and the deletions. *)
Lemma cleanup_country_layers_ok E country w :
  faults E (now w) (ListLayers (Some country)) = None →
  ∃ body,
    (cleanup_country_layers E country w).2 = Ok body ∧
    cr_details body
      = (cleanup_registrations (faults E) (now w) country
           (List.filter (in_country country) (layers (geoserver w)))
           (geoserver w)).1.
Proof.
  intros Hlist. run. unfold GeoServer.cleanup_duplicate_layers, listLayers.
  rewrite Hlist.
  pose proof (cleanup_report_shape (faults E) (now w) country
                (List.filter (in_country country) (layers (geoserver w)))
                (geoserver w)) as (Hs & _).
  destruct (cleanup_registrations (faults E) (now w) country
              (List.filter (in_country country) (layers (geoserver w)))
              (geoserver w)) as [report g'].
  simpl in *. rewrite Hs. simpl. by eexists.
Qed.

(** Two registrations of one layer: the older one is deleted, the newer
    one kept. *)
Example cleanup_country_scenario :
  let w := mkWorld Store.empty (GeoServer.mk Ready [Demo.t1; Demo.t2])
                   SpatialCache.empty 20240301 [] in
  let out := cleanup_country_layers (Demo.env Demo.no_faults) "laos" w in
  (∃ body, out.2 = Ok body ∧
           deleted (cr_details body) = 1%nat ∧
           kept_count (cr_details body) = 1%nat ∧
           failures (cr_details body) = []) ∧
  layers (geoserver out.1) = [Demo.t2].
Proof. vm_compute. split; [|done]. eexists. by repeat split. Qed.

(** The scenario of C3: three countries, each with a stale layer;
    deleting the one of the second country times out.  The call
    answers with three reports, the second lists the failure, and the
    stale layers of the first and the third country are gone. *)
Lemma cleanup_all_reports_each_country_witness :
  let regs := layers (geoserver Demo.cleanup_world) in
  let out := cleanup_all_layers Demo.cleanup_env Demo.cleanup_world in
  faults Demo.cleanup_env (now Demo.cleanup_world) (ListLayers None) = None ∧
  Demo.t1 ∈ stale (resolve (List.filter (in_country "laos") regs)) ∧
  (∃ body,
    out.2 = Ok body ∧
    ca_countries_processed body = 3%nat ∧
    ∃ report,
      report ∈ ca_details body ∧ GeoServer.country report = "laos" ∧
      ("laos_temp_rcp45_t1", mkError Unreachable "timed out") ∈ failures report) ∧
  (Demo.b1 ∉ layers (geoserver out.1)) ∧
  (Demo.n1 ∉ layers (geoserver out.1)) ∧
  Demo.t1 ∈ layers (geoserver out.1).
Proof.
  intros regs out.
  assert (Demo.t1 ∈ stale (resolve (List.filter (in_country "laos") regs))) as Hstale.
  { vm_compute. by left. }
  split; [reflexivity|]. split; [exact Hstale|].
  destruct (cleanup_all_reports_each_country Demo.cleanup_env Demo.cleanup_world
              "laos" Demo.t1 (mkError Unreachable "timed out")
              eq_refl Hstale eq_refl)
    as [(body & Hbody & _ & Hn & _ & _ & report & Hin & Hc & Hf) Hlayers].
  split; [|split; [|split]].
  - exists body. split; [exact Hbody|]. split; [exact Hn|].
    exists report. by repeat split.
  - intros Hx. apply Hlayers in Hx as [_ Hgone].
    apply (Hgone "bhutan" Demo.b1); [| |reflexivity|reflexivity].
    + vm_compute. by left.
    + vm_compute. by left.
  - intros Hx. apply Hlayers in Hx as [_ Hgone].
    apply (Hgone "nepal" Demo.n1); [| |reflexivity|reflexivity].
    + vm_compute. do 2 right. by left.
    + vm_compute. by left.
  - vm_compute. by left.
Defined.

End AppFacts.

(** ** More facts about the route table *)

Module RouteFacts.
Import Codec Routing Derived RoutingFacts.

Lemma string_app_assoc a b c : (a +:+ b) +:+ c = a +:+ (b +:+ c).
Proof.
  induction a as [|x a IH]; [done|].
  change (String x ((a +:+ b) +:+ c) = String x (a +:+ (b +:+ c))).
  by rewrite IH.
Qed.

Lemma split_slash_nonempty s : split_slash s ≠ [].
Proof.
  destruct s as [|c s]; simpl; [done|].
  case_bool_decide; [done|]. by destruct (split_slash s).
Qed.

Lemma join_slash_cons s l :
  l ≠ [] → join_slash (s :: l) = s +:+ "/" +:+ join_slash l.
Proof. by destruct l. Qed.

(** Splitting a path at the slashes loses nothing. *)
Lemma join_split_slash s : join_slash (split_slash s) = s.
Proof.
  induction s as [|c s IH]; simpl; [done|].
  case_bool_decide as Hc.
  - rewrite join_slash_cons by apply split_slash_nonempty.
    simpl. rewrite IH. by subst c.
  - pose proof (split_slash_nonempty s) as Hne.
    destruct (split_slash s) as [|h [|h' t]]; [done|..]; simpl in *;
      by rewrite <- IH.
Qed.

Lemma split_slash_free s : slash_free s = true → split_slash s = [s].
Proof.
  induction s as [|c s IH]; simpl; [done|].
  intros [Hc Hs]%andb_prop. apply negb_true_iff in Hc. rewrite Hc.
  by rewrite (IH Hs).
Qed.

Lemma split_slash_segments s : Forall (λ x, slash_free x = true) (split_slash s).
Proof.
  induction s as [|c s IH]; simpl; [by repeat constructor|].
  case_bool_decide as Hc; [by constructor|].
  pose proof (split_slash_nonempty s) as Hne.
  destruct (split_slash s) as [|h t]; [done|].
  apply Forall_cons in IH as [Hh Ht]. constructor; [|done].
  unfold slash_free in *. simpl. by rewrite Hh, bool_decide_eq_false_2.
Qed.

Lemma split_slash_app a b :
  slash_free a = true →
  split_slash (a +:+ String slash b) = a :: split_slash b.
Proof.
  induction a as [|c a IH]; simpl.
  - done.
  - intros [Hc Ha]%andb_prop. apply negb_true_iff in Hc.
    by rewrite Hc, (IH Ha).
Qed.

(** The route that handed a request to an endpoint. *)
Lemma dispatch_route m path e params :
  dispatch m path = Invoke e params →
  ∃ i r, routes !! i = Some r ∧ endpoint r = e ∧ method r = m ∧
         match_segments (compile_path (template r)) (split_slash path)
           = Some params.
Proof.
  intros (i & r & Hi & He & Hm & _)%route_request_invoke.
  exists i, r. repeat split; try done; unfold matches in Hm;
    destruct (match_segments _ _); try done;
    case_bool_decide; by simplify_eq.
Qed.

(** A handler runs only on a request of the method it is registered
    for: uploads and cleanups on POST, everything else on GET. *)
Theorem dispatch_respects_method m path e params :
  dispatch m path = Invoke e params → m = endpoint_method e.
Proof.
  intros (i & r & Hi & He & Hm & _)%dispatch_route. subst e m.
  do 12 (destruct i as [|i]; [simpl in Hi; by simplify_eq|]).
  by simpl in Hi.
Qed.

Lemma dispatch_respects_method_witness :
  dispatch POST "/api/upload/giri" = Invoke upload_giri_data [] ∧
  POST = endpoint_method upload_giri_data.
Proof.
  split; [reflexivity|].
  apply (dispatch_respects_method POST "/api/upload/giri" upload_giri_data []).
  reflexivity.
Defined.

(** Exactly the two shadowed endpoints are out of reach: every other
    endpoint is handed some request. *)
Theorem reachable_iff_not_shadowed e :
  reachable e ↔ e ≠ cleanup_all_layers ∧ e ≠ list_all_layers.
Proof.
  split.
  - intros Hr. split; intros ->;
      [by apply cleanup_all_unreachable | by apply list_all_unreachable].
  - intros [H1 H2]. destruct e; try done.
    + by exists GET, "/", [].
    + by exists GET, "/api/test", [].
    + by exists GET, "/api/health", [].
    + by exists POST, "/api/upload/climate", [].
    + by exists POST, "/api/upload/giri", [].
    + by exists POST, "/api/upload/energy", [].
    + by exists POST, "/api/upload/boundary", [].
    + by exists GET, "/api/layers/laos", [("country", "laos")].
    + by exists GET, "/api/geoserver/escap_climate/wms",
                [("workspace", "escap_climate"); ("path", "wms")].
    + by exists POST, "/api/cleanup/layers/laos", [("country", "laos")].
Qed.

Lemma endpoint_index i r e :
  routes !! i = Some r → endpoint r = e →
  routes !! i = List.find (λ r', bool_decide (endpoint r' = e)) routes.
Proof.
  intros Hi <-.
  do 12 (destruct i as [|i]; [simpl in Hi; by simplify_eq|]).
  by simpl in Hi.
Qed.

(** The requests that run [get_country_layers] are the GET requests for
    /api/layers/ followed by one non-empty segment, which is the
    country, whatever it spells. *)
Theorem get_country_layers_requests m path params :
  dispatch m path = Invoke get_country_layers params ↔
  m = GET ∧
  ∃ country, country ≠ "" ∧ slash_free country = true ∧
             path = "/api/layers/" +:+ country ∧
             params = [("country", country)].
Proof.
  split.
  - intros (i & r & Hi & He & Hm & Hseg)%dispatch_route.
    rewrite (endpoint_index i r get_country_layers Hi He) in Hi.
    simpl in Hi. simplify_eq. split; [done|].
    change (compile_path (template _))
      with [Lit ""; Lit "api"; Lit "layers"; Param "country"] in Hseg.
    pose proof (join_split_slash path) as Hpath.
    pose proof (split_slash_segments path) as Hfree.
    destruct (split_slash path) as [|s0 [|s1 [|s2 [|s3 [|s4 segs]]]]];
      simpl in Hseg; try done;
      repeat (case_bool_decide; simpl in Hseg; try done).
    rewrite !Forall_cons in Hfree. destruct Hfree as (_ & _ & _ & Hs3 & _).
    subst s0 s1 s2. injection Hseg as <-. exists s3.
    by rewrite <- Hpath.
  - intros [-> (country & Hne & Hfree & -> & ->)].
    unfold dispatch, routes, route_request, matches. simpl template.
    assert (split_slash ("/api/layers/" +:+ country)
            = [""; "api"; "layers"; country]) as ->.
    { change ("/api/layers/" +:+ country)
        with ("" +:+ String slash ("api" +:+ String slash
                ("layers" +:+ String slash country))).
      by rewrite !split_slash_app, (split_slash_free country). }
    simpl. by rewrite bool_decide_eq_false_2.
Qed.

(** The requests that run [cleanup_country_layers] are the POST requests
    for /api/cleanup/layers/ followed by one non-empty segment, the
    country; the segment all is no exception. *)
Theorem cleanup_country_layers_requests m path params :
  dispatch m path = Invoke cleanup_country_layers params ↔
  m = POST ∧
  ∃ country, country ≠ "" ∧ slash_free country = true ∧
             path = "/api/cleanup/layers/" +:+ country ∧
             params = [("country", country)].
Proof.
  split.
  - intros (i & r & Hi & He & Hm & Hseg)%dispatch_route.
    rewrite (endpoint_index i r cleanup_country_layers Hi He) in Hi.
    simpl in Hi. simplify_eq. split; [done|].
    change (compile_path (template _))
      with [Lit ""; Lit "api"; Lit "cleanup"; Lit "layers"; Param "country"]
      in Hseg.
    pose proof (join_split_slash path) as Hpath.
    pose proof (split_slash_segments path) as Hfree.
    destruct (split_slash path) as [|s0 [|s1 [|s2 [|s3 [|s4 [|s5 segs]]]]]];
      simpl in Hseg; try done;
      repeat (case_bool_decide; simpl in Hseg; try done).
    rewrite !Forall_cons in Hfree. destruct Hfree as (_ & _ & _ & _ & Hs4 & _).
    subst s0 s1 s2 s3. injection Hseg as <-. exists s4.
    by rewrite <- Hpath.
  - intros [-> (country & Hne & Hfree & -> & ->)].
    unfold dispatch, routes, route_request, matches. simpl template.
    assert (split_slash ("/api/cleanup/layers/" +:+ country)
            = [""; "api"; "cleanup"; "layers"; country]) as ->.
    { change ("/api/cleanup/layers/" +:+ country)
        with ("" +:+ String slash ("api" +:+ String slash
                ("cleanup" +:+ String slash ("layers" +:+ String slash country)))).
      by rewrite !split_slash_app, (split_slash_free country). }
    simpl. by rewrite bool_decide_eq_false_2.
Qed.

(** A request without line breaks in its path that runs
    [proxy_geoserver] is a GET for /api/geoserver/, a non-empty
    workspace segment, a slash and the rest; the handler fetches the
    base URL followed by what follows /api/geoserver in the request,
    and by the query if there is one, and answers with what it
    fetched. *)
Theorem proxy_forwards_path m path params :
  newline_free path = true →
  dispatch m path = Invoke proxy_geoserver params →
  m = GET ∧
  ∃ workspace rest suffix,
    params = [("workspace", workspace); ("path", rest)] ∧
    workspace ≠ "" ∧ slash_free workspace = true ∧
    path = "/api/geoserver" +:+ suffix ∧
    suffix = "/" +:+ workspace +:+ "/" +:+ rest ∧
    ∀ fetch env query,
      Proxy.proxy_geoserver fetch env workspace rest query
      = match fetch (Proxy.geoserver_base_url env +:+ suffix
                       +:+ Proxy.query_params query) with
        | Py.Return body => Py.Ok body
        | Py.Raise e => Py.HTTPException 500 ("GeoServer proxy error: " +:+ e)
        end.
Proof.
  intros _ (i & r & Hi & He & Hm & Hseg)%dispatch_route.
  rewrite (endpoint_index i r proxy_geoserver Hi He) in Hi.
  simpl in Hi. simplify_eq.
  change (compile_path (template _))
    with [Lit ""; Lit "api"; Lit "geoserver"; Param "workspace"; PathParam "path"]
    in Hseg.
  pose proof (join_split_slash path) as Hpath.
  pose proof (split_slash_segments path) as Hfree.
  destruct (split_slash path) as [|s0 [|s1 [|s2 [|s3 [|s4 segs]]]]];
    simpl in Hseg; try done;
    repeat (case_bool_decide; simpl in Hseg; try done).
  rewrite !Forall_cons in Hfree. destruct Hfree as (_ & _ & _ & Hs3 & _).
  subst s0 s1 s2. injection Hseg as <-. split; [done|].
  exists s3, (join_slash (s4 :: segs)),
         ("/" +:+ s3 +:+ "/" +:+ join_slash (s4 :: segs)).
  split; [done|]. split; [done|]. split; [done|]. split; [|split; [done|]].
  - rewrite <- Hpath. by do 4 (rewrite join_slash_cons by done).
  - intros fetch env query.
    unfold Proxy.proxy_geoserver, Proxy.full_url, Proxy.geoserver_url.
    by rewrite !string_app_assoc.
Qed.

Lemma proxy_forwards_path_witness :
  newline_free "/api/geoserver/escap_climate/wms/reflect" = true ∧
  dispatch GET "/api/geoserver/escap_climate/wms/reflect"
    = Invoke proxy_geoserver [("workspace", "escap_climate"); ("path", "wms/reflect")] ∧
  ∀ fetch,
    Proxy.proxy_geoserver fetch None "escap_climate" "wms/reflect" "layers=a"
    = match fetch "http://localhost:8081/geoserver/escap_climate/wms/reflect?layers=a"
      with
      | Py.Return body => Py.Ok body
      | Py.Raise e => Py.HTTPException 500 ("GeoServer proxy error: " +:+ e)
      end.
Proof.
  split; [reflexivity|]. split; [reflexivity|]. intros fetch.
  destruct (proxy_forwards_path GET "/api/geoserver/escap_climate/wms/reflect"
              [("workspace", "escap_climate"); ("path", "wms/reflect")]
              eq_refl eq_refl)
    as (_ & workspace & rest & suffix & Hp & _ & _ & _ & Hs & Hfetch).
  injection Hp as <- <-. subst suffix.
  exact (Hfetch fetch None "layers=a").
Defined.

End RouteFacts.

(** ** More facts about layer names *)

Module NameFacts.
Import Codec Derived CodecFacts.

Lemma string_length_app a b :
  String.length (a +:+ b) = (String.length a + String.length b)%nat.
Proof.
  induction a as [|x a IH]; [done|].
  change (S (String.length (a +:+ b)) = S (String.length a + String.length b)).
  by rewrite IH.
Qed.

(** A common suffix can be taken off. *)
Lemma string_app_inv_tail a b s : a +:+ s = b +:+ s → a = b.
Proof.
  revert b. induction a as [|x a IH]; intros [|y b] E; [done|..].
  - apply (f_equal String.length) in E.
    rewrite !string_length_app in E. simpl in E. lia.
  - apply (f_equal String.length) in E.
    rewrite !string_length_app in E. simpl in E. lia.
  - change (String x (a +:+ s) = String y (b +:+ s)) in E.
    injection E as -> E. f_equal. by apply IH.
Qed.

(** Within one dataset kind the names tell the identities apart as soon
    as the fields before the last one contain no underscore; the last
    field may contain any character, and boundary names need no
    condition at all. *)
Theorem layer_name_injective_within_kind i j :
  kind_of i = kind_of j →
  forallb underscore_free (leading_fields i) = true →
  forallb underscore_free (leading_fields j) = true →
  layer_name i = layer_name j → i = j.
Proof.
  destruct i as [c v s|c v s|c t|c], j as [c' v' s'|c' v' s'|c' t'|c'];
    try discriminate; intros _ Hi Hj; simpl in Hi, Hj;
    repeat match goal with
           | H : _ && _ = true |- _ => apply andb_prop in H as [? ?]
           end; simpl.
  - intros E. apply prefix_unique in E as [-> E]; [|done..].
    apply prefix_unique in E as [-> ->]; done.
  - intros E. apply prefix_unique in E as [-> E]; [|done..].
    apply prefix_unique in E as [-> E]; [|done..].
    by apply (string_app_inv_tail _ _ "_giri") in E as ->.
  - intros E. apply prefix_unique in E as [-> E]; [|done..].
    by apply (string_app_inv_tail _ _ "_energy") in E as ->.
  - intros E. by apply (string_app_inv_tail _ _ "_boundary") in E as ->.
Qed.

Lemma layer_name_injective_within_kind_witness :
  kind_of (Climate "laos" "temp" "rcp_45") = kind_of (Climate "laos" "temp" "rcp45") ∧
  (layer_name (Climate "laos" "temp" "rcp_45")
     = layer_name (Climate "laos" "temp" "rcp45") →
   Climate "laos" "temp" "rcp_45" = Climate "laos" "temp" "rcp45").
Proof.
  split; [reflexivity|].
  apply (layer_name_injective_within_kind
           (Climate "laos" "temp" "rcp_45") (Climate "laos" "temp" "rcp45"));
    reflexivity.
Defined.

(** A climate layer and a giri layer whose country and variable contain
    no underscore share their name exactly when country and variable
    agree and the climate scenario is the giri scenario followed by
    _giri. *)
Theorem climate_giri_collide_iff c v s c' v' s' :
  underscore_free c = true → underscore_free v = true →
  underscore_free c' = true → underscore_free v' = true →
  layer_name (Climate c v s) = layer_name (Giri c' v' s') ↔
  c = c' ∧ v = v' ∧ s = s' +:+ "_giri".
Proof.
  intros Hc Hv Hc' Hv'. split.
  - simpl. intros E. apply prefix_unique in E as [-> E]; [|done..].
    by apply prefix_unique in E as [-> ->].
  - by intros (-> & -> & ->).
Qed.

Lemma climate_giri_collide_iff_witness :
  underscore_free "laos" = true ∧ underscore_free "flood" = true ∧
  (layer_name (Climate "laos" "flood" "rp100_giri")
     = layer_name (Giri "laos" "flood" "rp100") ↔
   "laos" = "laos" ∧ "flood" = "flood" ∧ "rp100_giri" = "rp100" +:+ "_giri").
Proof.
  split; [reflexivity|]. split; [reflexivity|].
  apply (climate_giri_collide_iff "laos" "flood" "rp100_giri" "laos" "flood" "rp100");
    reflexivity.
Defined.

End NameFacts.

(** ** More facts about the upload and read handlers *)

Module HandlerFacts.
Import Codec Payload GeoServer App Derived AppFacts.

Ltac steps_taken n :=
  exists n; simpl; rewrite <- ?app_assoc, ?app_nil_r; simpl;
  first [done | split; [lia|done]].

Ltac some_steps_taken :=
  first [steps_taken 0%nat | steps_taken 1%nat | steps_taken 2%nat
        | steps_taken 3%nat | steps_taken 4%nat].

(** An upload calls its collaborators in the order processor, commit,
    publish, cache, and stops where one of them fails.  It answers 200
    only if the file processing succeeded, the publish call did not
    fail and all four calls were made.  A classification that does not
    parse stops it before any call, a file processing that fails
    before the commit, a publish call that fails before the cache
    write; each gives an error. *)
Theorem upload_outcome E req w :
  (∃ n, calls (upload E req w).1 = calls w ++ take n (upload_steps req)) ∧
  (is_ok (upload E req w).2 = true →
   processing_succeeds E req = true ∧
   faults E (now w) (service_call req) = None ∧
   calls (upload E req w).1 = calls w ++ upload_steps req) ∧
  (parses E req = false →
   is_ok (upload E req w).2 = false ∧ calls (upload E req w).1 = calls w) ∧
  (processing_succeeds E req = false →
   is_ok (upload E req w).2 = false ∧
   ∃ n, (n ≤ 1)%nat ∧
        calls (upload E req w).1 = calls w ++ take n (upload_steps req)) ∧
  (faults E (now w) (service_call req) ≠ None →
   is_ok (upload E req w).2 = false ∧
   ∃ n, (n ≤ 3)%nat ∧
        calls (upload E req w).1 = calls w ++ take n (upload_steps req)).
Proof.
  unfold upload_steps, parses, request_kind.
  destruct req; run; answers; simpl;
    (split; [some_steps_taken|]);
    (split; [intros; try done; by rewrite <- ?app_assoc|]);
    (split; [by intros|]);
    (split; [intros; try done; (split; [done|some_steps_taken])|]);
    (intros; try done; (split; [done|some_steps_taken])).
Qed.

Lemma upload_outcome_witness :
  let out := upload (Demo.env Demo.no_faults)
               (UploadClimate Demo.laos_temp_rcp45) (started 0) in
  is_ok out.2 = true ∧
  calls out.1 = [FileProcessor climate; DbCommit climate;
                 PublishRaster "laos_temp_rcp45";
                 CachePutLayer "laos_temp_rcp45"].
Proof.
  intros out.
  assert (is_ok out.2 = true) as Hok by reflexivity.
  split; [exact Hok|].
  destruct (upload_outcome (Demo.env Demo.no_faults)
              (UploadClimate Demo.laos_temp_rcp45) (started 0))
    as (_ & Hdone & _).
  destruct (Hdone Hok) as (_ & _ & Hcalls). exact Hcalls.
Defined.



(** A successful upload has committed the row of its layer. *)
Lemma upload_ok_commits E req w :
  is_ok (upload E req w).2 = true →
  ∃ row, row_identity row = request_identity req ∧
         db (upload E req w).1 = Store.insert_row (db w) row.
Proof.
  destruct req; run; answers; try done; intros _;
    [eexists (Store.ClimateRow _) | eexists (Store.GiriRow _)
     | eexists (Store.EnergyRow _) | eexists (Store.BoundaryRow _)];
    split; try reflexivity; reflexivity.
Qed.

Lemma uncached_listing_assembled E country w :
  SpatialCache.get_country_layers (now w) country (spatial_cache w) = None →
  (get_country_layers E country w).2 = Ok (assemble E country (db w)).
Proof. intros H. run. by rewrite H. Qed.

(** The listing of a row's country shows the row's layer under the
    name the upload publishes it under. *)
Lemma inserted_row_listed E d row :
  layer_name (row_identity row)
    ∈ listing_names (assemble E (country_of (row_identity row))
                       (Store.insert_row d row)).
Proof.
  unfold listing_names, assemble.
  destruct row as [r|r|r|r]; simpl;
    unfold Store.query_climate, Store.query_giri, Store.query_energy,
           Store.query_boundary; simpl;
    rewrite filter_app, fmap_app, fmap_app, !elem_of_app.
  - left. right. rewrite filter_cons_True by done. simpl. by left.
  - right. left. right. rewrite filter_cons_True by done. simpl. by left.
  - do 2 right. left. right. rewrite filter_cons_True by done. simpl. by left.
  - do 3 right. right. rewrite filter_cons_True by done. simpl. by left.
Qed.

(** After a successful upload, a read of the country that is not
    answered from the cache lists the new layer under the very name the
    upload answered with. *)
Theorem uploaded_layer_is_listed E req w :
  let country := country_of (request_identity req) in
  is_ok (upload E req w).2 = true →
  SpatialCache.get_country_layers (now w) country (spatial_cache w) = None →
  ∃ body listing,
    (upload E req w).2 = Ok body ∧
    (get_country_layers E country (upload E req w).1).2 = Ok listing ∧
    response_layer_name body ∈ listing_names listing.
Proof.
  intros country Hok Hmiss.
  destruct (upload_ok_registers E req w Hok) as (_ & body & Hbody & Hname & _).
  destruct (upload_ok_commits E req w Hok) as (row & Hrow & Hdb).
  destruct (upload_frame E req w) as (Hnow & _ & Hentries).
  exists body, (assemble E country (db (upload E req w).1)).
  split; [done|]. split.
  - apply uncached_listing_assembled.
    unfold SpatialCache.get_country_layers in *. by rewrite Hnow, Hentries.
  - rewrite Hname, Hdb. subst country. rewrite <- Hrow.
    apply inserted_row_listed.
Qed.

Lemma uploaded_layer_is_listed_witness :
  let E := Demo.env Demo.no_faults in
  let req := UploadClimate Demo.laos_temp_rcp45 in
  is_ok (upload E req (started 0)).2 = true ∧
  ∃ body listing,
    (upload E req (started 0)).2 = Ok body ∧
    (get_country_layers E "laos" (upload E req (started 0)).1).2 = Ok listing ∧
    response_layer_name body ∈ listing_names listing.
Proof.
  intros E req. split; [reflexivity|].
  apply (uploaded_layer_is_listed E req (started 0)); reflexivity.
Defined.

Lemma started_well_keyed t : well_keyed (spatial_cache (started t)).
Proof. intros key entry H. simpl in H. by rewrite lookup_empty in H. Qed.

(** The cached listings stay under the key of their own country: with
    that so before, it is so after a read and after an upload, and a
    listing that a read answers with is of the country asked for. *)
Theorem listings_keyed_by_country E w country :
  well_keyed (spatial_cache w) →
  match (get_country_layers E country w).2 with
  | Ok body => CountryLayers.country body = country
  | HTTPException _ _ => True
  end ∧
  well_keyed (spatial_cache (get_country_layers E country w).1) ∧
  ∀ req, well_keyed (spatial_cache (upload E req w).1).
Proof.
  intros Hkeyed. split; [|split].
  - run.
    destruct (SpatialCache.get_country_layers (now w) country (spatial_cache w))
      as [cached|] eqn:Hget; simpl; [|done].
    unfold SpatialCache.get_country_layers in Hget.
    destruct (SpatialCache.country_entries (spatial_cache w) !! country)
      as [entry|] eqn:Hentry; simpl in Hget; [|done].
    unfold SpatialCache.fresh in Hget. case_bool_decide; simplify_eq.
    by apply Hkeyed.
  - run.
    destruct (SpatialCache.get_country_layers (now w) country (spatial_cache w))
      as [cached|]; simpl; [done|].
    intros key entry. unfold SpatialCache.cache_country_layers. simpl.
    destruct (decide (key = country)) as [->|Hne].
    + rewrite lookup_insert_eq. by intros [= <-].
    + rewrite lookup_insert_ne by done. apply Hkeyed.
  - intros req key entry.
    destruct (upload_frame E req w) as (_ & _ & ->). apply Hkeyed.
Qed.

Lemma listings_keyed_by_country_witness :
  let E := Demo.env Demo.no_faults in
  well_keyed (spatial_cache (started 0)) ∧
  match (get_country_layers E "laos" (started 0)).2 with
  | Ok body => CountryLayers.country body = "laos"
  | HTTPException _ _ => True
  end.
Proof.
  intros E. split; [apply started_well_keyed|].
  apply (listings_keyed_by_country E (started 0) "laos").
  apply started_well_keyed.
Defined.

End HandlerFacts.

(** ** Facts about the names of boundary files *)

Module BoundaryFacts.
Import Codec Boundaries CodecFacts.

(** What the three steps do to one character. *)
Definition normalize_char (c : ascii) : ascii :=
  let c1 := lower_char c in
  let c2 := if bool_decide (c1 = " "%char) then "_"%char else c1 in
  if bool_decide (c2 = "-"%char) then "_"%char else c2.

Lemma map_chars_map_chars f g s :
  map_chars f (map_chars g s) = map_chars (λ c, f (g c)) s.
Proof. induction s as [|c s IH]; simpl; [done|]. by rewrite IH. Qed.

Lemma boundary_layer_name_chars stem :
  boundary_layer_name stem = map_chars normalize_char stem.
Proof.
  unfold boundary_layer_name, replace_char, lower.
  by rewrite !map_chars_map_chars.
Qed.

Lemma all_chars_map_chars p f s :
  all_chars p (map_chars f s) = all_chars (λ c, p (f c)) s.
Proof. induction s as [|c s IH]; simpl; [done|]. by rewrite IH. Qed.

Lemma all_chars_ext p q s :
  (∀ c, p c = q c) → all_chars p s = all_chars q s.
Proof. intros H. induction s as [|c s IH]; simpl; [done|]. by rewrite H, IH. Qed.

Lemma map_chars_ext f g s :
  (∀ c, f c = g c) → map_chars f s = map_chars g s.
Proof. intros H. induction s as [|c s IH]; simpl; [done|]. by rewrite H, IH. Qed.

Lemma map_chars_length f s : String.length (map_chars f s) = String.length s.
Proof. induction s as [|c s IH]; simpl; [done|]. by rewrite IH. Qed.

Lemma normalize_char_normal c : normal_char (normalize_char c) = true.
Proof. destruct c as [[] [] [] [] [] [] [] []]; reflexivity. Qed.

Lemma normalize_char_idemp c : normalize_char (normalize_char c) = normalize_char c.
Proof. destruct c as [[] [] [] [] [] [] [] []]; reflexivity. Qed.

Lemma normalize_char_legal c : legal_char (normalize_char c) = normalizable_char c.
Proof. destruct c as [[] [] [] [] [] [] [] []]; reflexivity. Qed.

(** The layer name made from an ASCII stem has no uppercase letter, no
    space and no hyphen, is as long as the stem, and is left alone by
    the same three steps. *)
Theorem boundary_layer_name_normal stem :
  is_ascii stem = true →
  all_chars normal_char (boundary_layer_name stem) = true ∧
  String.length (boundary_layer_name stem) = String.length stem ∧
  boundary_layer_name (boundary_layer_name stem) = boundary_layer_name stem.
Proof.
  intros _. rewrite !boundary_layer_name_chars. split; [|split].
  - rewrite all_chars_map_chars.
    rewrite (all_chars_ext _ (λ _, true)) by apply normalize_char_normal.
    induction stem as [|c s IH]; simpl; done.
  - apply map_chars_length.
  - rewrite map_chars_map_chars. apply map_chars_ext, normalize_char_idemp.
Qed.

Lemma boundary_layer_name_normal_witness :
  is_ascii "Lao PDR-Admin 1" = true ∧
  boundary_layer_name "Lao PDR-Admin 1" = "lao_pdr_admin_1" ∧
  all_chars normal_char (boundary_layer_name "Lao PDR-Admin 1") = true.
Proof.
  split; [reflexivity|]. split; [reflexivity|].
  apply (boundary_layer_name_normal "Lao PDR-Admin 1"). reflexivity.
Defined.

(** The layer name made from an ASCII stem is a legal identifier
    (lowercase alphanumerics and underscore) exactly when the stem
    consists of letters, digits, spaces, hyphens and underscores; any
    other character, a dot for one, stays in the name. *)
Theorem boundary_layer_name_legal stem :
  is_ascii stem = true →
  legal_name (boundary_layer_name stem) = all_chars normalizable_char stem.
Proof.
  intros _. rewrite boundary_layer_name_chars. unfold legal_name.
  rewrite all_chars_map_chars. apply all_chars_ext, normalize_char_legal.
Qed.

Lemma boundary_layer_name_legal_witness :
  is_ascii "laos_admin.v2" = true ∧
  legal_name (boundary_layer_name "laos_admin.v2") = false.
Proof.
  split; [reflexivity|].
  rewrite (boundary_layer_name_legal "laos_admin.v2"); reflexivity.
Defined.

Lemma first_segment_free s : underscore_free (first_segment s) = true.
Proof.
  induction s as [|c s IH]; simpl; [done|].
  case_bool_decide as Hc; simpl; [done|].
  unfold underscore_free in *. simpl. by rewrite IH, bool_decide_eq_false_2.
Qed.

(** The country read off a layer name never contains an underscore. *)
Theorem boundary_country_one_segment layer_name :
  underscore_free (boundary_country layer_name) = true.
Proof.
  unfold boundary_country.
  destruct (contains "bhutan" (lower layer_name)
            || contains "dzongkhag" (lower layer_name)); [done|].
  apply first_segment_free.
Qed.










End BoundaryFacts.

(** ** Facts about the cleaning of attribute text *)

Module MaskFacts.
Import MaskScript.

(** What one replacement does to one character. *)
Definition swap (old new c : N) : N :=
  if bool_decide (c = old) then new else c.

(** What the eight replacements, in their order, do to one character. *)
Definition translate (c : N) : N :=
  swap 0xF6 111 (swap 0xE4 97 (swap 0xFC 117 (swap 0xEE 105
    (swap 0xFB 117 (swap 0xF4 111 (swap 0xEA 101 (swap 0xE2 97 c))))))).

Lemma replace_cons old new c s :
  replace old new (c :: s) = swap old new c :: replace old new s.
Proof. reflexivity. Qed.

Lemma swap_ne old new c : c ≠ old → swap old new c = c.
Proof. intros H. unfold swap. by rewrite bool_decide_eq_false_2. Qed.

Lemma clean_cons_translate c s :
  clean (c :: s)
  = if bool_decide (translate c < 128)%N then translate c :: clean s else clean s.
Proof. unfold clean. by rewrite !replace_cons. Qed.

(** Settles the tests on a character whose value is known. *)
Ltac decide_tests :=
  repeat match goal with
         | |- context [bool_decide ?P] =>
             first [ rewrite (bool_decide_eq_true_2 P) by lia
                   | rewrite (bool_decide_eq_false_2 P) by lia ]
         end.

Lemma translate_char c :
  (if bool_decide (translate c < 128)%N then Some (translate c) else None)
  = clean_char c.
Proof.
  assert ((c < 128 ∨ c = 0xE2 ∨ c = 0xE4 ∨ c = 0xEA ∨ c = 0xEE ∨ c = 0xF4
           ∨ c = 0xF6 ∨ c = 0xFB ∨ c = 0xFC
           ∨ (128 ≤ c ∧ c ≠ 0xE2 ∧ c ≠ 0xE4 ∧ c ≠ 0xEA ∧ c ≠ 0xEE ∧ c ≠ 0xF4
              ∧ c ≠ 0xF6 ∧ c ≠ 0xFB ∧ c ≠ 0xFC))%N) as Hc by lia.
  destruct Hc as [?|[->|[->|[->|[->|[->|[->|[->|[->|?]]]]]]]]].
  1, 10: unfold translate;
    rewrite (swap_ne 0xE2 _ c), (swap_ne 0xEA _ c), (swap_ne 0xF4 _ c),
      (swap_ne 0xFB _ c), (swap_ne 0xEE _ c), (swap_ne 0xFC _ c),
      (swap_ne 0xE4 _ c), (swap_ne 0xF6 _ c) by lia;
    unfold clean_char; decide_tests; reflexivity.
  all: by vm_compute.
Qed.

Lemma clean_cons c s :
  clean (c :: s)
  = match clean_char c with Some x => x :: clean s | None => clean s end.
Proof.
  rewrite clean_cons_translate, <- translate_char.
  by destruct (bool_decide (translate c < 128)%N).
Qed.

(** The eight replacements and the removal of what is not ASCII amount
    to one pass that treats every character by itself: an ASCII
    character stays, an accented letter of the eight becomes its base
    letter, any other character is dropped. *)
Theorem clean_pointwise s : clean s = omap clean_char s.
Proof.
  induction s as [|c s IH]; [done|].
  rewrite clean_cons. simpl. rewrite IH. by destruct (clean_char c).
Qed.

Lemma clean_char_ascii c x : clean_char c = Some x → (x < 128)%N.
Proof.
  unfold clean_char. repeat case_bool_decide; intros [= <-]; lia.
Qed.

Lemma clean_char_keeps c : (c < 128)%N → clean_char c = Some c.
Proof. intros H. unfold clean_char. by rewrite bool_decide_eq_true_2. Qed.

(** Cleaned text is ASCII, never longer than the text, and cleaning
    changes a text exactly when it has a character that is not ASCII. *)
Theorem clean_ascii s :
  Forall (λ c, (c < 128)%N) (clean s) ∧
  (length (clean s) ≤ length s)%nat ∧
  (clean s = s ↔ Forall (λ c, (c < 128)%N) s).
Proof.
  assert (Hascii : ∀ t, Forall (λ c, (c < 128)%N) (clean t)).
  { intros t. induction t as [|c t IH]; [constructor|].
    rewrite clean_cons. destruct (clean_char c) as [x|] eqn:Hc; [|done].
    constructor; [by eapply clean_char_ascii|done]. }
  assert (Hlen : ∀ t, (length (clean t) ≤ length t)%nat).
  { intros t. induction t as [|c t IH]; [done|].
    rewrite clean_cons. destruct (clean_char c); simpl; lia. }
  split; [apply Hascii|]. split; [apply Hlen|]. split.
  - intros <-. apply Hascii.
  - induction 1 as [|c t Hc _ IH]; [done|].
    by rewrite clean_cons, (clean_char_keeps c Hc), IH.
Qed.

End MaskFacts.
